(** * SciPy lecture notebook: the repository's own code, over the reals

    The notebook [2_ScipyLibrary] defines four small Python functions
    ([dx], [dy] and two called [f]) and a handful of array expressions;
    everything else is a call into SciPy, NumPy or matplotlib.  This
    development embeds the repository's own code and checks the
    specification's claims on it.

    Floating-point numbers are idealised as real numbers ([R]); NumPy
    arrays and Python lists are Rocq lists; the notebook's global
    namespace is a finite map from names to values; Python exceptions are
    the [Raise] branch of a result type.  The functions are given twice:
    as Rocq functions, and as the syntax of their cells with an
    interpreter; the two are proved to agree. *)

From Stdlib Require Import Reals Lra Lia.
From stdpp Require Import base strings gmap list sorting.

Open Scope R_scope.

(** ** Exceptions and results *)

Inductive exn : Type :=
| IndexError
| ZeroDivisionError
| NameError
| TypeError
| ValueError
| SyntaxError
| LibraryError (code : nat)
| Unsupported.

Inductive result (A : Type) : Type :=
| Ok (a : A)
| Raise (e : exn).

Arguments Ok {A} a.
Arguments Raise {A} e.

#[global] Instance result_ret : MRet result := fun _ a => Ok a.
#[global] Instance result_bind : MBind result := fun _ _ k r =>
  match r with
  | Ok a => k a
  | Raise e => Raise e
  end.
#[global] Instance result_fmap : FMap result := fun _ _ h r =>
  match r with
  | Ok a => Ok (h a)
  | Raise e => Raise e
  end.

(** ** Syntax of the notebook's Python

    The code cells are kept as syntax trees as well, for the claims that
    are about the text of the program (which names a block reads, whether
    a body has a loop, whether a handler exists).  The statement type has
    the control constructs of Python, so that their absence from the
    notebook is a checked fact and not an artefact of the type. *)

Inductive binop : Type := Add | Sub | Mul | Div | Pow | Gt.

#[warnings="-register-all"]
Inductive expr : Type :=
| Name (x : string)
| Int (n : Z)
| Float (r : R)
| Str (s : string)
| Attr (e : expr) (field : string)              (* e.field *)
| Call (fn : expr) (args : list expr)           (* fn(args) *)
| Kw (key : string) (e : expr)                  (* key=e inside a call *)
| Index (e : expr) (ix : list expr)             (* e[i], e[:, j] *)
| FullSlice                                     (* the ":" of e[:, j] *)
| Neg (e : expr)
| Pos (e : expr)
| Bin (op : binop) (a b : expr)
| ListLit (es : list expr)
| TupleLit (es : list expr).

#[warnings="-register-all"]
Inductive stmt : Type :=
| Assign (targets : list string) (e : expr)     (* a = e;  a, b = e *)
| ExprStmt (e : expr)
| Def (name : string) (params : list string) (body : list stmt)
| Return (e : expr)
| Import (names : list string)                  (* names an import binds *)
| ImportStar (module : string)                  (* from module import * *)
| Magic (line : string)                         (* %pylab inline *)
| Print (es : list expr)
| If (c : expr) (body orelse : list stmt)
| While (c : expr) (body : list stmt)
| For (x : string) (e : expr) (body : list stmt)
| Try (body handler : list stmt).

(** ** Values and the global namespace *)

#[warnings="-register-all"]
Inductive value : Type :=
| VInt (n : Z)                                   (* int, and bool as 0 or 1 *)
| VFloat (r : R)
| VStr (s : string)
| VSeq (vs : list value)                         (* list, tuple or array *)
| VKw (key : string) (v : value)                 (* a keyword argument *)
| VFun (params : list string) (body : list stmt) (* a [def] of the notebook *)
| VObj (tag : string).                           (* any library object *)

Abbreviation store := (gmap string value).

(** A float array as a Python value. *)
Definition VArr (a : list R) : value := VSeq (VFloat <$> a).

(** The number a value stands for, if it is one. *)
Definition as_real (v : value) : option R :=
  match v with
  | VInt n => Some (IZR n)
  | VFloat r => Some r
  | _ => None
  end.

(** ** Python primitives used by the notebook's own code *)

#[global] Instance Rlt_decision (a b : R) : Decision (a < b) := Rlt_dec a b.
#[global] Instance Req_decision : EqDecision R := Req_dec_T.

(** [a[i]] for a constant, non-negative [i]. *)
Definition getitem {A : Type} (a : list A) (i : nat) : result A :=
  match a !! i with
  | Some v => Ok v
  | None => Raise IndexError
  end.

(** [a / b] on Python floats: a zero divisor raises.  (On NumPy scalars
    it yields [inf] and a warning instead; the stricter behaviour is
    taken for every division.) *)
Definition pdiv (a b : R) : result R :=
  if decide (b = 0) then Raise ZeroDivisionError else Ok (a / b).

(** Reading a global variable that is used as a number.  An int is read
    as the real it denotes; the notebook's globals are floats.  (The
    interpreter further down keeps ints and floats apart.) *)
Definition global (st : store) (name : string) : result R :=
  match st !! name with
  | Some v => match as_real v with
              | Some r => Ok r
              | None => Raise TypeError
              end
  | None => Raise NameError
  end.

(** ** The double pendulum: [dx]

<<
g = 9.82
L = 0.5
m = 0.1

def dx(x, t):
    x1, x2, x3, x4 = x[0], x[1], x[2], x[3]
    dx1 = 6.0/(m*L**2) * (2 * x3 - 3 * cos(x1-x2) * x4)/(16 - 9 * cos(x1-x2)**2)
    dx2 = 6.0/(m*L**2) * (8 * x4 - 3 * cos(x1-x2) * x3)/(16 - 9 * cos(x1-x2)**2)
    dx3 = -0.5 * m * L**2 * ( dx1 * dx2 * sin(x1-x2) + 3 * (g/L) * sin(x1))
    dx4 = -0.5 * m * L**2 * (-dx1 * dx2 * sin(x1-x2) + (g/L) * sin(x2))
    return [dx1, dx2, dx3, dx4]
>>

    [g], [L] and [m] are globals of the notebook: [dx] looks them up in
    the namespace [st] each time it is called, at the place where Python
    evaluates the name.  Operators associate as Python parses them. *)

Definition pendulum_globals (st : store) : store :=
  <["m" := VFloat 0.1]> (<["L" := VFloat 0.5]> (<["g" := VFloat 9.82]> st)).

Definition dx (st : store) (x : list R) (t : R) : result (list R) :=
  x1 ← getitem x 0; x2 ← getitem x 1; x3 ← getitem x 2; x4 ← getitem x 3;
  m ← global st "m"; L ← global st "L";
  c1 ← pdiv 6.0 (m * L ^ 2);
  dx1 ← pdiv (c1 * (2 * x3 - 3 * cos (x1 - x2) * x4))
             (16 - 9 * cos (x1 - x2) ^ 2);
  m ← global st "m"; L ← global st "L";
  c2 ← pdiv 6.0 (m * L ^ 2);
  dx2 ← pdiv (c2 * (8 * x4 - 3 * cos (x1 - x2) * x3))
             (16 - 9 * cos (x1 - x2) ^ 2);
  m ← global st "m"; L ← global st "L";
  g ← global st "g"; L' ← global st "L";
  gL ← pdiv g L';
  let dx3 := - (0.5) * m * L ^ 2
             * (dx1 * dx2 * sin (x1 - x2) + 3 * gL * sin x1) in
  m ← global st "m"; L ← global st "L";
  g ← global st "g"; L' ← global st "L";
  gL ← pdiv g L';
  let dx4 := - (0.5) * m * L ^ 2
             * (- dx1 * dx2 * sin (x1 - x2) + gL * sin x2) in
  Ok [dx1; dx2; dx3; dx4].

(** The equations of motion as the specification writes them, with the
    constants [m = 0.1], [L = 0.5], [g = 9.82] substituted. *)
Definition pendulum_rhs (x1 x2 x3 x4 : R) : list R :=
  let m := 0.1 in
  let L := 0.5 in
  let g := 9.82 in
  let dx1 := 6 / (m * L ^ 2) * ((2 * x3 - 3 * cos (x1 - x2) * x4)
                                / (16 - 9 * cos (x1 - x2) ^ 2)) in
  let dx2 := 6 / (m * L ^ 2) * ((8 * x4 - 3 * cos (x1 - x2) * x3)
                                / (16 - 9 * cos (x1 - x2) ^ 2)) in
  let dx3 := - 0.5 * m * L ^ 2
             * (dx1 * dx2 * sin (x1 - x2) + 3 * (g / L) * sin x1) in
  let dx4 := - 0.5 * m * L ^ 2
             * (- dx1 * dx2 * sin (x1 - x2) + (g / L) * sin x2) in
  [dx1; dx2; dx3; dx4].

(** The shared denominator of [dx1] and [dx2]. *)
Definition pendulum_denominator (x1 x2 : R) : R :=
  16 - 9 * cos (x1 - x2) ^ 2.

(** ** The damped oscillator: [dy]

<<
def dy(y, t, zeta, w0):
    x, p = y[0], y[1]
    dx = p
    dp = -2 * zeta * w0 * p - w0**2 * x
    return [dx, dp]
>>
    [dx] is a local variable here, not the function above. *)

Definition dy (y : list R) (t zeta w0 : R) : result (list R) :=
  x ← getitem y 0; p ← getitem y 1;
  let dx := p in
  let dp := - 2 * zeta * w0 * p - w0 ^ 2 * x in
  Ok [dx; dp].

(** ** The two functions called [f]

<<
def f(x):
    return 4*x**3 + (x-2)**2 + x**4
>>
    in the optimisation block, and
<<
def f(x):
    return sin(x)
>>
    in the interpolation block. *)

Module Optimization.
Definition f (x : R) : R := 4 * x ^ 3 + (x - 2) ^ 2 + x ^ 4.
End Optimization.

Module Interpolation.
Definition f (x : R) : R := sin x.
End Interpolation.

(** ** Array helpers (NumPy on one- and two-dimensional arrays) *)

(** [x[:, j]]: column [j] of a two-dimensional array given by its rows. *)
Definition column (x : list (list R)) (j : nat) : result (list R) :=
  mapM (fun row => getitem row j) x.

(** [c * a] for a scalar [c] and, for a function [h], [h(a)]:
    both act on every element. *)
Definition scale (c : R) (a : list R) : list R := Rmult c <$> a.

(** [a + b] and [a - b] on arrays of one shape. *)
Definition arr_op (op : R -> R -> R) (a b : list R) : result (list R) :=
  if decide (length a = length b) then Ok (zip_with op a b)
  else Raise ValueError.

(** ** Coordinates of the two pendulum bobs

<<
x1 = + L * sin(x[:, 0])
y1 = - L * cos(x[:, 0])
x2 = x1 + L * sin(x[:, 1])
y2 = y1 - L * cos(x[:, 1])
>>
    [x] is the array returned by [odeint]: one row per time point. *)

Record bobs : Type := Bobs {
  bob_x1 : list R; bob_y1 : list R; bob_x2 : list R; bob_y2 : list R
}.

Definition pendulum_xy (st : store) (x : list (list R)) : result bobs :=
  L ← global st "L"; th1 ← column x 0;
  let x1 := scale L (sin <$> th1) in
  L ← global st "L"; th1 ← column x 0;
  let y1 := scale (- L) (cos <$> th1) in
  L ← global st "L"; th2 ← column x 1;
  x2 ← arr_op Rplus x1 (scale L (sin <$> th2));
  L ← global st "L"; th2 ← column x 1;
  y2 ← arr_op Rminus y1 (scale L (cos <$> th2));
  Ok (Bobs x1 y1 x2 y2).

(** ** Positive frequencies

<<
indices = where(w > 0)
w_pos = w[indices]
F_pos = F[indices]
>>
*)

(** [w > 0]: the boolean mask. *)
Definition positive_mask (w : list R) : list bool :=
  (fun r => bool_decide (0 < r)) <$> w.

(** [where(mask)]: the positions of the true entries, counted from [i]. *)
Fixpoint where_from (i : nat) (mask : list bool) : list nat :=
  match mask with
  | [] => []
  | b :: mask' =>
      if b then i :: where_from (S i) mask' else where_from (S i) mask'
  end.

Definition where_ (mask : list bool) : list nat := where_from 0 mask.

(** [a[indices]] for an array of indices. *)
Definition take_indices {A : Type} (a : list A) (indices : list nat)
  : result (list A) :=
  mapM (getitem a) indices.

Definition positive_frequencies {A : Type} (w : list R) (F : list A)
  : result (list nat * list R * list A) :=
  let indices := where_ (positive_mask w) in
  w_pos ← take_indices w indices;
  F_pos ← take_indices F indices;
  Ok (indices, w_pos, F_pos).


(** Entries of [a] kept by a mask, in order. *)
Definition masked {A : Type} (a : list A) (mask : list bool) : list A :=
  (filter (fun p => p.2 = true) (zip a mask)).*1.

(** * The notebook as syntax

    Every code cell, in order, grouped by the second-level headings of
    the notebook.  Python's own operators are used through notations, so
    that a cell reads as in the source: a string stands for the variable
    of that name, [Str] marks a string literal. *)

Declare Scope py_scope.
Delimit Scope py_scope with py.
Bind Scope py_scope with expr.

Coercion Name : string >-> expr.

Notation "a + b" := (Bin Add a b) : py_scope.
Notation "a - b" := (Bin Sub a b) : py_scope.
Notation "a * b" := (Bin Mul a b) : py_scope.
Notation "a / b" := (Bin Div a b) : py_scope.
Notation "a ** b" := (Bin Pow a b) (at level 30, right associativity) : py_scope.
Notation "a > b" := (Bin Gt a b) : py_scope.
Notation "- a" := (Neg a) : py_scope.

Record block : Type := Block {
  title : string;
  cells : list (list stmt)
}.

Module Notebook.
Local Open Scope py_scope.

Definition dx_body : list stmt :=
  [ Assign ["x1"; "x2"; "x3"; "x4"]
      (TupleLit [Index "x" [Int 0]; Index "x" [Int 1];
                 Index "x" [Int 2]; Index "x" [Int 3]]);
    Assign ["dx1"]
      (Float 6.0 / ("m" * "L" ** Int 2)
       * (Int 2 * "x3" - Int 3 * Call "cos" ["x1" - "x2"] * "x4")
       / (Int 16 - Int 9 * Call "cos" ["x1" - "x2"] ** Int 2));
    Assign ["dx2"]
      (Float 6.0 / ("m" * "L" ** Int 2)
       * (Int 8 * "x4" - Int 3 * Call "cos" ["x1" - "x2"] * "x3")
       / (Int 16 - Int 9 * Call "cos" ["x1" - "x2"] ** Int 2));
    Assign ["dx3"]
      (- Float 0.5 * "m" * "L" ** Int 2
       * ("dx1" * "dx2" * Call "sin" ["x1" - "x2"]
          + Int 3 * ("g" / "L") * Call "sin" ["x1" : expr]));
    Assign ["dx4"]
      (- Float 0.5 * "m" * "L" ** Int 2
       * (- "dx1" * "dx2" * Call "sin" ["x1" - "x2"]
          + ("g" / "L") * Call "sin" ["x2" : expr]));
    Return (ListLit ["dx1" : expr; "dx2" : expr; "dx3" : expr; "dx4" : expr]) ].

Definition dx_def : stmt := Def "dx" ["x"; "t"] dx_body.

Definition dy_body : list stmt :=
  [ Assign ["x"; "p"] (TupleLit [Index "y" [Int 0]; Index "y" [Int 1]]);
    Assign ["dx"] "p";
    Assign ["dp"] (- Int 2 * "zeta" * "w0" * "p" - "w0" ** Int 2 * "x");
    Return (ListLit ["dx" : expr; "dp" : expr]) ].

Definition dy_def : stmt := Def "dy" ["y"; "t"; "zeta"; "w0"] dy_body.

Definition f_optimization_body : list stmt :=
  [ Return (Int 4 * "x" ** Int 3 + ("x" - Int 2) ** Int 2 + "x" ** Int 4) ].

Definition f_optimization_def : stmt := Def "f" ["x"] f_optimization_body.

Definition f_interpolation_body : list stmt :=
  [ Return (Call "sin" ["x" : expr]) ].

Definition f_interpolation_def : stmt := Def "f" ["x"] f_interpolation_body.

Definition introduction : block :=
  Block "Introduction"
    [ [ Magic "%pylab inline"; Import ["Image"] ];
      [ ImportStar "scipy" ];
      [ Import ["la"] ] ].

Definition odes : block :=
  Block "Ordinary differential equations (ODEs)"
    [ [ Import ["odeint"; "ode"] ] ].

Definition double_pendulum : block :=
  Block "Example: double pendulum"
    [ [ ExprStmt (Call "Image"
          [Kw "url" (Str "http://upload.wikimedia.org/wikipedia/commons/c/c9/Double-compound-pendulum-dimensioned.svg")]) ];
      [ Assign ["g"] (Float 9.82);
        Assign ["L"] (Float 0.5);
        Assign ["m"] (Float 0.1);
        dx_def ];
      [ Assign ["x0"] (ListLit ["pi" / Int 4; "pi" / Int 2; Int 0; Int 0]) ];
      [ Assign ["t"] (Call "linspace" [Int 0; Int 10; Int 250]) ];
      [ Assign ["x"] (Call "odeint" ["dx" : expr; "x0" : expr; "t" : expr]) ];
      [ ExprStmt "x" ] ].

Definition pendulum_animation : block :=
  Block "Simple annimation of the pendulum motion."
    [ [ Assign ["fig"; "axes"]
          (Call "subplots" [Int 1; Int 2; Kw "figsize" (TupleLit [Int 12; Int 4])]);
        ExprStmt (Call (Attr (Index "axes" [Int 0]) "plot")
                    ["t" : expr; Index "x" [FullSlice; Int 0]; Str "r";
                     Kw "label" (Str "theta1")]);
        ExprStmt (Call (Attr (Index "axes" [Int 0]) "plot")
                    ["t" : expr; Index "x" [FullSlice; Int 1]; Str "b";
                     Kw "label" (Str "theta2")]);
        Assign ["x1"] (Pos "L" * Call "sin" [Index "x" [FullSlice; Int 0]]);
        Assign ["y1"] (- "L" * Call "cos" [Index "x" [FullSlice; Int 0]]);
        Assign ["x2"] ("x1" + "L" * Call "sin" [Index "x" [FullSlice; Int 1]]);
        Assign ["y2"] ("y1" - "L" * Call "cos" [Index "x" [FullSlice; Int 1]]);
        ExprStmt (Call (Attr (Index "axes" [Int 1]) "plot")
                    ["x1" : expr; "y1" : expr; Str "r"; Kw "label" (Str "pendulum1")]);
        ExprStmt (Call (Attr (Index "axes" [Int 1]) "plot")
                    ["x2" : expr; "y2" : expr; Str "b"; Kw "label" (Str "pendulum2")]);
        ExprStmt (Call (Attr (Index "axes" [Int 1]) "set_ylim")
                    [ListLit [- Int 1; Int 0]]);
        ExprStmt (Call (Attr (Index "axes" [Int 1]) "set_xlim")
                    [ListLit [Int 1; - Int 1]]) ] ].

Definition damped_oscillator : block :=
  Block "Example: Damped harmonic oscillator"
    [ [ dy_def ];
      [ Assign ["y0"] (ListLit [Float 1.0; Float 0.0]) ];
      [ Assign ["t"] (Call "linspace" [Int 0; Int 10; Int 1000]);
        Assign ["w0"] (Int 2 * "pi" * Float 1.0) ];
      [ Assign ["y1"] (Call "odeint" ["dy" : expr; "y0" : expr; "t" : expr;
                         Kw "args" (TupleLit [Float 0.0; "w0" : expr])]);
        Assign ["y2"] (Call "odeint" ["dy" : expr; "y0" : expr; "t" : expr;
                         Kw "args" (TupleLit [Float 0.2; "w0" : expr])]);
        Assign ["y3"] (Call "odeint" ["dy" : expr; "y0" : expr; "t" : expr;
                         Kw "args" (TupleLit [Float 1.0; "w0" : expr])]);
        Assign ["y4"] (Call "odeint" ["dy" : expr; "y0" : expr; "t" : expr;
                         Kw "args" (TupleLit [Float 5.0; "w0" : expr])]) ];
      [ Assign ["fig"; "ax"] (Call "subplots" []);
        ExprStmt (Call (Attr "ax" "plot")
                    ["t" : expr; Index "y1" [FullSlice; Int 0]; Str "k";
                     Kw "label" (Str "undamped"); Kw "linewidth" (Float 0.25)]);
        ExprStmt (Call (Attr "ax" "plot")
                    ["t" : expr; Index "y2" [FullSlice; Int 0]; Str "r";
                     Kw "label" (Str "under damped")]);
        ExprStmt (Call (Attr "ax" "plot")
                    ["t" : expr; Index "y3" [FullSlice; Int 0]; Str "b";
                     Kw "label" (Str "critical damping")]);
        ExprStmt (Call (Attr "ax" "plot")
                    ["t" : expr; Index "y4" [FullSlice; Int 0]; Str "g";
                     Kw "label" (Str "over damped")]);
        ExprStmt (Call (Attr "ax" "legend") []) ] ].

Definition fourier_transform : block :=
  Block "Fourier transform"
    [ [ ImportStar "scipy.fftpack" ];
      [ Assign ["N"] (Call "len" ["t" : expr]);
        Assign ["dt"] (Index "t" [Int 1] - Index "t" [Int 0]);
        Assign ["F"] (Call "fft" [Index "y2" [FullSlice; Int 0]]);
        Assign ["w"] (Call "fftfreq" ["N" : expr; "dt" : expr]) ];
      [ Assign ["fig"; "ax"]
          (Call "subplots" [Kw "figsize" (TupleLit [Int 9; Int 3])]);
        ExprStmt (Call (Attr "ax" "plot") ["w" : expr; Call "abs" ["F" : expr]]) ];
      [ Assign ["indices"] (Call "where" ["w" > Int 0]);
        Assign ["w_pos"] (Index "w" ["indices" : expr]);
        Assign ["F_pos"] (Index "F" ["indices" : expr]) ];
      [ Assign ["fig"; "ax"]
          (Call "subplots" [Kw "figsize" (TupleLit [Int 9; Int 3])]);
        ExprStmt (Call (Attr "ax" "plot")
                    ["w_pos" : expr; Call "abs" ["F_pos" : expr]]);
        ExprStmt (Call (Attr "ax" "set_xlim") [Int 0; Int 5]) ] ].

Definition optimization : block :=
  Block "Optimization"
    [ [ Import ["optimize"] ];
      [ f_optimization_def ];
      [ Assign ["fig"; "ax"] (Call "subplots" []);
        Assign ["x"] (Call "linspace" [- Int 5; Int 3; Int 100]);
        ExprStmt (Call (Attr "ax" "plot") ["x" : expr; Call "f" ["x" : expr]]) ];
      [ Assign ["x_min"] (Call (Attr "optimize" "fmin_bfgs") ["f" : expr; - Int 2]);
        ExprStmt "x_min" ];
      [ ExprStmt (Call (Attr "optimize" "fmin_bfgs") ["f" : expr; Float 0.5]) ];
      [ ExprStmt (Call (Attr "optimize" "brent") ["f" : expr]) ];
      [ ExprStmt (Call (Attr "optimize" "fminbound") ["f" : expr; - Int 4; Int 2]) ] ].

Definition interpolation : block :=
  Block "Interpolation"
    [ [ ImportStar "scipy.interpolate" ];
      [ f_interpolation_def ];
      [ Assign ["n"] (Call "arange" [Int 0; Int 10]);
        Assign ["x"] (Call "linspace" [Int 0; Int 9; Int 100]);
        Assign ["y_meas"]
          (Call "f" ["n" : expr] + Float 0.1 * Call "randn" [Call "len" ["n" : expr]]);
        Assign ["y_real"] (Call "f" ["x" : expr]);
        Assign ["linear_interpolation"] (Call "interp1d" ["n" : expr; "y_meas" : expr]);
        Assign ["y_interp1"] (Call "linear_interpolation" ["x" : expr]);
        Assign ["cubic_interpolation"]
          (Call "interp1d" ["n" : expr; "y_meas" : expr; Kw "kind" (Str "cubic")]);
        Assign ["y_interp2"] (Call "cubic_interpolation" ["x" : expr]) ];
      [ Assign ["fig"; "ax"]
          (Call "subplots" [Kw "figsize" (TupleLit [Int 10; Int 4])]);
        ExprStmt (Call (Attr "ax" "plot")
                    ["n" : expr; "y_meas" : expr; Str "bs"; Kw "label" (Str "noisy data")]);
        ExprStmt (Call (Attr "ax" "plot")
                    ["x" : expr; "y_real" : expr; Str "k"; Kw "lw" (Int 2);
                     Kw "label" (Str "true function")]);
        ExprStmt (Call (Attr "ax" "plot")
                    ["x" : expr; "y_interp1" : expr; Str "r";
                     Kw "label" (Str "linear interp")]);
        ExprStmt (Call (Attr "ax" "plot")
                    ["x" : expr; "y_interp2" : expr; Str "g";
                     Kw "label" (Str "cubic interp")]);
        ExprStmt (Call (Attr "ax" "legend") [Kw "loc" (Int 3)]) ] ].

Definition statistics : block :=
  Block "Statistics"
    [ [ Import ["stats"] ];
      [ Assign ["X"] (Call (Attr "stats" "poisson") [Float 3.5]) ];
      [ Assign ["n"] (Call "arange" [Int 0; Int 15]);
        Assign ["fig"; "axes"]
          (Call "subplots" [Int 3; Int 1; Kw "sharex" "True"]);
        ExprStmt (Call (Attr (Index "axes" [Int 0]) "step")
                    ["n" : expr; Call (Attr "X" "pmf") ["n" : expr]]);
        ExprStmt (Call (Attr (Index "axes" [Int 1]) "step")
                    ["n" : expr; Call (Attr "X" "cdf") ["n" : expr]]);
        ExprStmt (Call (Attr (Index "axes" [Int 2]) "hist")
                    [Call (Attr "X" "rvs") [Kw "size" (Int 1000)]]) ];
      [ Assign ["Y"] (Call (Attr "stats" "norm") []) ];
      [ Assign ["x"] (Call "linspace" [- Int 5; Int 5; Int 100]);
        Assign ["fig"; "axes"]
          (Call "subplots" [Int 3; Int 1; Kw "sharex" "True"]);
        ExprStmt (Call (Attr (Index "axes" [Int 0]) "plot")
                    ["x" : expr; Call (Attr "Y" "pdf") ["x" : expr]]);
        ExprStmt (Call (Attr (Index "axes" [Int 1]) "plot")
                    ["x" : expr; Call (Attr "Y" "cdf") ["x" : expr]]);
        ExprStmt (Call (Attr (Index "axes" [Int 2]) "hist")
                    [Call (Attr "Y" "rvs") [Kw "size" (Int 1000)];
                     Kw "bins" (Int 50)]) ];
      [ ExprStmt (TupleLit [Call (Attr "X" "mean") []; Call (Attr "X" "std") [];
                            Call (Attr "X" "var") []]) ];
      [ ExprStmt (TupleLit [Call (Attr "Y" "mean") []; Call (Attr "Y" "std") [];
                            Call (Attr "Y" "var") []]) ];
      [ Assign ["t_statistic"; "p_value"]
          (Call (Attr "stats" "ttest_ind")
             [Call (Attr "X" "rvs") [Kw "size" (Int 1000)];
              Call (Attr "X" "rvs") [Kw "size" (Int 1000)]]);
        Print [Str "t-statistic ="; "t_statistic" : expr];
        Print [Str "p-value ="; "p_value" : expr] ];
      [ ExprStmt (Call (Attr "stats" "ttest_1samp")
                    [Call (Attr "Y" "rvs") [Kw "size" (Int 1000)]; Float 0.1]) ];
      [ ExprStmt (Call (Attr "Y" "mean") []) ];
      [ ExprStmt (Call (Attr "stats" "ttest_1samp")
                    [Call (Attr "Y" "rvs") [Kw "size" (Int 1000)];
                     Call (Attr "Y" "mean") []]) ] ].

Definition further_reading : block :=
  Block "Further reading" [ [] ].

Definition blocks : list block :=
  [ introduction; odes; double_pendulum; pendulum_animation;
    damped_oscillator; fourier_transform; optimization; interpolation;
    statistics; further_reading ].

End Notebook.

(** * Reading the syntax: names, bindings, control constructs *)

(** The variables an expression reads. *)
Fixpoint names (e : expr) : list string :=
  match e with
  | Name x => [x]
  | Int _ | Float _ | Str _ | FullSlice => []
  | Attr e _ | Kw _ e | Neg e | Pos e => names e
  | Call fn args => names fn ++ (args ≫= names)
  | Index e ix => names e ++ (ix ≫= names)
  | Bin _ a b => names a ++ names b
  | ListLit es | TupleLit es => es ≫= names
  end.

(** The names a statement binds by assignment, [def] or [for]. *)
Fixpoint assigned (s : stmt) : list string :=
  match s with
  | Assign ts _ => ts
  | Def name _ _ => [name]
  | If _ body orelse => (body ≫= assigned) ++ (orelse ≫= assigned)
  | While _ body => body ≫= assigned
  | For x _ body => x :: (body ≫= assigned)
  | Try body handler => (body ≫= assigned) ++ (handler ≫= assigned)
  | ExprStmt _ | Return _ | Import _ | ImportStar _ | Magic _ | Print _ => []
  end.

(** The names a statement binds by a named import. *)
Fixpoint imported (s : stmt) : list string :=
  match s with
  | Import ns => ns
  | If _ body orelse => (body ≫= imported) ++ (orelse ≫= imported)
  | While _ body | For _ _ body => body ≫= imported
  | Try body handler => (body ≫= imported) ++ (handler ≫= imported)
  | Def _ _ _ | Assign _ _ | ExprStmt _ | Return _ | ImportStar _ | Magic _
  | Print _ => []
  end.

(** The names a statement reads.  For a [def] these are the free names
    of the body: what it reads that is neither a parameter nor assigned
    in the body (Python makes every name assigned in a body local). *)
Fixpoint reads (s : stmt) : list string :=
  match s with
  | Assign _ e | ExprStmt e | Return e => names e
  | Def _ params body =>
      filter (fun x => x ∉ params ++ (body ≫= assigned)) (body ≫= reads)
  | Print es => es ≫= names
  | If c body orelse => names c ++ (body ≫= reads) ++ (orelse ≫= reads)
  | While c body => names c ++ (body ≫= reads)
  | For _ e body => names e ++ (body ≫= reads)
  | Try body handler => (body ≫= reads) ++ (handler ≫= reads)
  | Import _ | ImportStar _ | Magic _ => []
  end.

(** The expressions a statement evaluates itself (not those of nested
    statements). *)
Definition stmt_exprs (s : stmt) : list expr :=
  match s with
  | Assign _ e | ExprStmt e | Return e | If e _ _ | While e _ | For _ e _ => [e]
  | Print es => es
  | Def _ _ _ | Import _ | ImportStar _ | Magic _ | Try _ _ => []
  end.

(** Number of loops and of exception handlers, nested ones included. *)
Fixpoint loops (s : stmt) : nat :=
  match s with
  | While _ body | For _ _ body => S (sum_list (loops <$> body))
  | If _ body orelse => sum_list (loops <$> body) + sum_list (loops <$> orelse)
  | Try body handler => sum_list (loops <$> body) + sum_list (loops <$> handler)
  | Def _ _ body => sum_list (loops <$> body)
  | _ => 0
  end.

Fixpoint handlers (s : stmt) : nat :=
  match s with
  | Try body handler =>
      S (sum_list (handlers <$> body) + sum_list (handlers <$> handler))
  | While _ body | For _ _ body | Def _ _ body => sum_list (handlers <$> body)
  | If _ body orelse =>
      sum_list (handlers <$> body) + sum_list (handlers <$> orelse)
  | _ => 0
  end.

(** A statement without a nested block: everything a cell of the
    notebook is made of. *)
Definition simple (s : stmt) : bool :=
  match s with
  | Assign _ _ | ExprStmt _ | Print _ | Def _ _ _
  | Import _ | ImportStar _ | Magic _ => true
  | Return _ | If _ _ _ | While _ _ | For _ _ _ | Try _ _ => false
  end.

(** A body that is a sequence of assignments ending in returns. *)
Definition straight_line (body : list stmt) : bool :=
  forallb (fun s => match s with
                    | Assign _ _ | Return _ => true
                    | _ => false
                    end) body.

(** The function definitions of a statement list, nested ones included. *)
Fixpoint defs_of (s : stmt) : list (string * list string * list stmt) :=
  match s with
  | Def name params body => (name, params, body) :: (body ≫= defs_of)
  | If _ body orelse => (body ≫= defs_of) ++ (orelse ≫= defs_of)
  | While _ body | For _ _ body => body ≫= defs_of
  | Try body handler => (body ≫= defs_of) ++ (handler ≫= defs_of)
  | _ => []
  end.

(** ** Blocks *)

Definition block_stmts (b : block) : list stmt := concat (cells b).

(** What a statement list reads before binding it itself, given the
    names already bound. *)
Fixpoint inflow_from (known : list string) (ss : list stmt) : list string :=
  match ss with
  | [] => []
  | s :: ss' =>
      filter (fun x => x ∉ known) (reads s)
      ++ inflow_from (assigned s ++ imported s ++ known) ss'
  end.

Definition free_names (b : block) : list string :=
  remove_dups (inflow_from [] (block_stmts b)).

Definition block_assigned (b : block) : list string :=
  remove_dups (block_stmts b ≫= assigned).

(** The variables of the notebook: every name some cell assigns.  All
    other names are the library's. *)
Definition notebook_stmts : list stmt := Notebook.blocks ≫= block_stmts.

Definition notebook_cells : list (list stmt) := Notebook.blocks ≫= cells.

Definition notebook_variables : list string :=
  remove_dups (notebook_stmts ≫= assigned).

Definition notebook_defs : list (string * list string * list stmt) :=
  notebook_stmts ≫= defs_of.

(** The notebook variables a block reads without assigning them first. *)
Definition inflow (b : block) : list string :=
  filter (fun x => x ∈ notebook_variables) (free_names b).

(** The last of the blocks [before] that assigns [x]. *)
Definition producer (before : list block) (x : string) : option string :=
  title <$> last (filter (fun b => x ∈ block_assigned b) before).

(** For every block: its title and, for each variable that flows into
    it, the block that produced the value. *)
Fixpoint dataflow_from (before : list block) (bs : list block)
  : list (string * list (string * option string)) :=
  match bs with
  | [] => []
  | b :: bs' =>
      (title b, (fun x => (x, producer before x)) <$> inflow b)
      :: dataflow_from (before ++ [b]) bs'
  end.

Definition dataflow : list (string * list (string * option string)) :=
  dataflow_from [] Notebook.blocks.

(** * Evaluation

    Expressions are evaluated natively on numbers and sequences: the
    arithmetic, constant indexing, [cos], [sin] and [len] that the
    notebook's own functions use.  Everything else (library objects,
    array arithmetic, attribute access, slices) is asked from a
    [runtime], about which nothing is assumed. *)

Record runtime : Type := Runtime {
  rt_call : value -> list value -> result value;      (* v(args) *)
  rt_attr : value -> string -> result value;          (* v.field *)
  rt_index : value -> list value -> result value;     (* v[ix] *)
  rt_neg : value -> result value;                     (* -v *)
  rt_pos : value -> result value;                     (* +v *)
  rt_binop : binop -> value -> value -> result value  (* v op w *)
}.

(** Arithmetic on two ints (Python 2: [/] is floor division). *)
Definition int_binop (op : binop) (x y : Z) : option (result value) :=
  match op with
  | Add => Some (Ok (VInt (x + y)))
  | Sub => Some (Ok (VInt (x - y)))
  | Mul => Some (Ok (VInt (x * y)))
  | Div => Some (if (y =? 0)%Z then Raise ZeroDivisionError
                 else Ok (VInt (x `div` y)))
  | Pow => if (0 <=? y)%Z then Some (Ok (VInt (x ^ y))) else None
  | Gt => Some (Ok (VInt (if (y <? x)%Z then 1 else 0)))
  end.

(** Arithmetic on two numbers of which one is a float; [yv] is the right
    operand as a value, for the integer exponent of [**]. *)
Definition float_binop (op : binop) (x : R) (yv : value) (y : R)
  : option (result value) :=
  match op with
  | Add => Some (Ok (VFloat (x + y)))
  | Sub => Some (Ok (VFloat (x - y)))
  | Mul => Some (Ok (VFloat (x * y)))
  | Div => Some (VFloat <$> pdiv x y)
  | Pow => match yv with
           | VInt n => if (0 <=? n)%Z
                       then Some (Ok (VFloat (x ^ Z.to_nat n))) else None
           | _ => None
           end
  | Gt => Some (Ok (VInt (if decide (y < x) then 1 else 0)))
  end.

Definition binop_value (rt : runtime) (op : binop) (a b : value)
  : result value :=
  match a, b with
  | VInt x, VInt y => default (rt_binop rt op a b) (int_binop op x y)
  | _, _ =>
      match as_real a, as_real b with
      | Some x, Some y => default (rt_binop rt op a b) (float_binop op x b y)
      | _, _ => rt_binop rt op a b
      end
  end.

Definition neg_value (rt : runtime) (a : value) : result value :=
  match a with
  | VInt n => Ok (VInt (- n))
  | VFloat r => Ok (VFloat (- r))
  | _ => rt_neg rt a
  end.

Definition pos_value (rt : runtime) (a : value) : result value :=
  match a with
  | VInt _ | VFloat _ => Ok a
  | _ => rt_pos rt a
  end.

(** [v[i]] on a sequence with one non-negative int index. *)
Definition index_value (rt : runtime) (v : value) (ix : list value)
  : result value :=
  match v, ix with
  | VSeq vs, [VInt i] =>
      if (0 <=? i)%Z then getitem vs (Z.to_nat i) else rt_index rt v ix
  | _, _ => rt_index rt v ix
  end.

(** Calls: [cos] and [sin] on a number, [len] on a sequence. *)
Definition call_value (rt : runtime) (fn : value) (args : list value)
  : result value :=
  match fn, args with
  | VObj tag, [a] =>
      if String.eqb tag "cos" then
        match as_real a with
        | Some r => Ok (VFloat (cos r))
        | None => rt_call rt fn args
        end
      else if String.eqb tag "sin" then
        match as_real a with
        | Some r => Ok (VFloat (sin r))
        | None => rt_call rt fn args
        end
      else if String.eqb tag "len" then
        match a with
        | VSeq vs => Ok (VInt (Z.of_nat (length vs)))
        | _ => rt_call rt fn args
        end
      else rt_call rt fn args
  | _, _ => rt_call rt fn args
  end.

(** Evaluation of an expression; [look] resolves a name. *)
Fixpoint eval_expr (rt : runtime) (look : string -> option value) (e : expr)
  : result value :=
  match e with
  | Name x => match look x with
              | Some v => Ok v
              | None => Raise NameError
              end
  | Int n => Ok (VInt n)
  | Float r => Ok (VFloat r)
  | Str s => Ok (VStr s)
  | Attr e field => v ← eval_expr rt look e; rt_attr rt v field
  | Call fn args =>
      f ← eval_expr rt look fn;
      vs ← mapM (eval_expr rt look) args;
      call_value rt f vs
  | Kw key e => v ← eval_expr rt look e; Ok (VKw key v)
  | Index e ix =>
      v ← eval_expr rt look e;
      ixs ← mapM (eval_expr rt look) ix;
      index_value rt v ixs
  | FullSlice => Ok (VObj ":")
  | Neg e => v ← eval_expr rt look e; neg_value rt v
  | Pos e => v ← eval_expr rt look e; pos_value rt v
  | Bin op a b =>
      va ← eval_expr rt look a;
      vb ← eval_expr rt look b;
      binop_value rt op va vb
  | ListLit es | TupleLit es => VSeq <$> mapM (eval_expr rt look) es
  end.

(** ** Calling a function of the notebook *)

(** The local variables of a call, latest binding first. *)
Abbreviation locals := (list (string * value)).

Fixpoint local_lookup (fr : locals) (x : string) : option value :=
  match fr with
  | [] => None
  | (y, v) :: fr' => if String.eqb x y then Some v else local_lookup fr' x
  end.

(** Name resolution inside a body: locals, then globals. *)
Definition scope (fr : locals) (globals : store) (x : string) : option value :=
  match local_lookup fr x with
  | Some v => Some v
  | None => globals !! x
  end.

(** [a = v] and [a, b = v] on locals. *)
Definition bind_locals (targets : list string) (v : value) (fr : locals)
  : result locals :=
  match targets with
  | [x] => Ok ((x, v) :: fr)
  | _ => match v with
         | VSeq vs => if (length vs =? length targets)%nat
                      then Ok (reverse (zip targets vs) ++ fr)
                      else Raise ValueError
         | _ => Raise TypeError
         end
  end.

(** A straight-line body: assignments up to the first [return].  Other
    statements are outside this interpreter ([Unsupported] is not an
    exception of Python). *)
Fixpoint run_body (rt : runtime) (globals : store) (fr : locals)
    (body : list stmt) : result value :=
  match body with
  | [] => Ok (VObj "None")
  | Assign targets e :: rest =>
      v ← eval_expr rt (scope fr globals) e;
      fr' ← bind_locals targets v fr;
      run_body rt globals fr' rest
  | Return e :: _ => eval_expr rt (scope fr globals) e
  | _ :: _ => Raise Unsupported
  end.

Definition call_def (rt : runtime) (globals : store) (fn : value)
    (args : list value) : result value :=
  match fn with
  | VFun params body =>
      if (length params =? length args)%nat
      then run_body rt globals (reverse (zip params args)) body
      else Raise TypeError
  | _ => Raise TypeError
  end.

(** ** Running cells *)

Inductive outcome : Type :=
| Done
| Raised (e : exn)
| OutOfFuel.

(** [a = v] and [a, b = v] on the global namespace. *)
Definition bind_targets (targets : list string) (v : value) (st : store)
  : result store :=
  match targets with
  | [x] => Ok (<[x := v]> st)
  | _ => match v with
         | VSeq vs => if (length vs =? length targets)%nat
                      then Ok (foldl (fun s p => <[p.1 := p.2]> s) st
                                     (zip targets vs))
                      else Raise ValueError
         | _ => Raise TypeError
         end
  end.

Definition import_names (ns : list string) (st : store) : store :=
  foldr (fun n s => <[n := VObj n]> s) st ns.

Definition truthy (v : value) : bool :=
  match v with
  | VInt n => bool_decide (n <> 0%Z)
  | VFloat r => bool_decide (r <> 0)
  | VStr s => bool_decide (s <> ""%string)
  | VSeq vs => bool_decide (vs <> [])
  | VKw _ _ | VFun _ _ | VObj _ => true
  end.

Section Exec.
(** How expressions evaluate in a namespace, which names a star import
    or a magic binds, and how many iterations a [while] may take. *)
Variable eval : expr -> store -> result value.
Variable exports : string -> list string.
Variable fuel : nat.

Definition eval_all (es : list expr) (st : store) : result (list value) :=
  mapM (fun e => eval e st) es.

Fixpoint exec (s : stmt) (st : store) {struct s} : store * outcome :=
  let run_block :=
    fix go (ss : list stmt) (st : store) {struct ss} : store * outcome :=
      match ss with
      | [] => (st, Done)
      | s' :: ss' => match exec s' st with
                     | (st', Done) => go ss' st'
                     | r => r
                     end
      end in
  match s with
  | Assign targets e =>
      match eval e st with
      | Raise x => (st, Raised x)
      | Ok v => match bind_targets targets v st with
                | Ok st' => (st', Done)
                | Raise x => (st, Raised x)
                end
      end
  | ExprStmt e =>
      match eval e st with
      | Raise x => (st, Raised x)
      | Ok _ => (st, Done)
      end
  | Print es =>
      match eval_all es st with
      | Raise x => (st, Raised x)
      | Ok _ => (st, Done)
      end
  | Def name params body => (<[name := VFun params body]> st, Done)
  | Return _ => (st, Raised SyntaxError)
  | Import ns => (import_names ns st, Done)
  | ImportStar module => (import_names (exports module) st, Done)
  | Magic line => (import_names (exports line) st, Done)
  | If c body orelse =>
      match eval c st with
      | Raise x => (st, Raised x)
      | Ok v => if truthy v then run_block body st else run_block orelse st
      end
  | While c body =>
      (fix loop (n : nat) (st : store) {struct n} : store * outcome :=
         match n with
         | O => (st, OutOfFuel)
         | S n' =>
             match eval c st with
             | Raise x => (st, Raised x)
             | Ok v =>
                 if truthy v
                 then match run_block body st with
                      | (st', Done) => loop n' st'
                      | r => r
                      end
                 else (st, Done)
             end
         end) fuel st
  | For x e body =>
      match eval e st with
      | Raise x => (st, Raised x)
      | Ok (VSeq vs) =>
          (fix iter (vs : list value) (st : store) {struct vs}
             : store * outcome :=
             match vs with
             | [] => (st, Done)
             | v :: vs' => match run_block body (<[x := v]> st) with
                           | (st', Done) => iter vs' st'
                           | r => r
                           end
             end) vs st
      | Ok _ => (st, Raised TypeError)
      end
  | Try body handler =>
      match run_block body st with
      | (st', Raised _) => run_block handler st'
      | r => r
      end
  end.

(** A cell, or any statement list, from top to bottom. *)
Fixpoint run (ss : list stmt) (st : store) : store * outcome :=
  match ss with
  | [] => (st, Done)
  | s :: ss' => match exec s st with
                | (st', Done) => run ss' st'
                | r => r
                end
  end.

(** The statement [s] is a call site whose evaluation raises [e]. *)
Definition call_site_raises (s : stmt) (st : store) (e : exn) : Prop :=
  match s with
  | Assign _ ex | ExprStmt ex => eval ex st = Raise e
  | Print es => eval_all es st = Raise e
  | _ => False
  end.
End Exec.

(** Two namespaces agree on a list of names. *)
Definition agree (X : list string) (st st' : store) : Prop :=
  forall x, x ∈ X -> st !! x = st' !! x.

(** The evaluator gives an expression a value that depends only on the
    variables the expression names. *)
Definition local_on (eval : expr -> store -> result value) (es : list expr)
  : Prop :=
  forall e, e ∈ es ->
    forall st st', agree (names e) st st' -> eval e st = eval e st'.

(** Evaluation of a cell expression by the native evaluator. *)
Definition eval_cell (rt : runtime) (e : expr) (st : store) : result value :=
  eval_expr rt (fun x => st !! x) e.

(** ** Two runtimes and a namespace for concrete runs *)

(** Every operation of the library returns the same pair of objects. *)
Definition obliging_runtime : runtime :=
  let r := Ok (VSeq [VObj "lib"; VObj "lib"]) in
  Runtime (fun _ _ => r) (fun _ _ => r) (fun _ _ => r)
          (fun _ => r) (fun _ => r) (fun _ _ _ => r).

(** Every call of a library routine raises; other operations succeed. *)
Definition failing_runtime : runtime :=
  let r := Ok (VObj "lib") in
  Runtime (fun _ _ => Raise (LibraryError 1)) (fun _ _ => r) (fun _ _ => r)
          (fun _ => r) (fun _ => r) (fun _ _ _ => r).

(** The library names the Fourier block uses, a solution array [y2],
    and a time grid [t]. *)
Definition fourier_namespace (t : list Z) : store :=
  <["t" := VSeq (VInt <$> t)]>
    (<["y2" := VObj "array"]>
       (import_names ["len"; "fft"; "fftfreq"; "where"; "subplots"; "abs"] ∅)).

(** Structural induction on expressions, through the argument lists. *)
Section ExprInduction.
Variable P : expr -> Prop.
Hypothesis HName : forall x, P (Name x).
Hypothesis HInt : forall n, P (Int n).
Hypothesis HFloat : forall r, P (Float r).
Hypothesis HStr : forall s, P (Str s).
Hypothesis HAttr : forall e field, P e -> P (Attr e field).
Hypothesis HCall : forall fn args, P fn -> Forall P args -> P (Call fn args).
Hypothesis HKw : forall key e, P e -> P (Kw key e).
Hypothesis HIndex : forall e ix, P e -> Forall P ix -> P (Index e ix).
Hypothesis HFullSlice : P FullSlice.
Hypothesis HNeg : forall e, P e -> P (Neg e).
Hypothesis HPos : forall e, P e -> P (Pos e).
Hypothesis HBin : forall op a b, P a -> P b -> P (Bin op a b).
Hypothesis HListLit : forall es, Forall P es -> P (ListLit es).
Hypothesis HTupleLit : forall es, Forall P es -> P (TupleLit es).

Fixpoint expr_nested_ind (e : expr) : P e :=
  let all :=
    fix go (es : list expr) : Forall P es :=
      match es with
      | [] => @List.Forall_nil expr P
      | e' :: es' =>
          @List.Forall_cons expr P e' es' (expr_nested_ind e') (go es')
      end in
  match e with
  | Name x => HName x
  | Int n => HInt n
  | Float r => HFloat r
  | Str s => HStr s
  | Attr e field => HAttr e field (expr_nested_ind e)
  | Call fn args => HCall fn args (expr_nested_ind fn) (all args)
  | Kw key e => HKw key e (expr_nested_ind e)
  | Index e ix => HIndex e ix (expr_nested_ind e) (all ix)
  | FullSlice => HFullSlice
  | Neg e => HNeg e (expr_nested_ind e)
  | Pos e => HPos e (expr_nested_ind e)
  | Bin op a b => HBin op a b (expr_nested_ind a) (expr_nested_ind b)
  | ListLit es => HListLit es (all es)
  | TupleLit es => HTupleLit es (all es)
  end.
End ExprInduction.

(** A global that is a float, or is not bound at all. *)
Definition float_or_unbound (st : store) (x : string) : Prop :=
  match st !! x with
  | None | Some (VFloat _) => True
  | Some _ => False
  end.

(** A runtime whose operations raise exceptions of Python only. *)
Definition python_runtime (rt : runtime) : Prop :=
  (forall v args, rt_call rt v args <> Raise Unsupported)
  /\ (forall v field, rt_attr rt v field <> Raise Unsupported)
  /\ (forall v ix, rt_index rt v ix <> Raise Unsupported)
  /\ (forall v, rt_neg rt v <> Raise Unsupported)
  /\ (forall v, rt_pos rt v <> Raise Unsupported)
  /\ (forall op v w, rt_binop rt op v w <> Raise Unsupported).

(** What the text of a function definition shows: its name, whether
    its body is straight-line, how many loops it has, which free names
    it reads, and which of these are functions of the notebook. *)
Definition def_summary (d : string * list string * list stmt)
  : string * bool * nat * list string * list string :=
  let '(name, params, body) := d in
  let free := remove_dups (reads (Def name params body)) in
  (name, straight_line body, loops (Def name params body), free,
   filter (fun x => x ∈ notebook_defs.*1.*1) free).


(** * Properties *)

Lemma pendulum_denominator_bounds (x1 x2 : R) :
  7 <= pendulum_denominator x1 x2 <= 16.
Proof.
  unfold pendulum_denominator.
  pose proof (COS_bound (x1 - x2)) as [Hlo Hhi].
  nra.
Qed.

Lemma pendulum_denominator_nonzero (x1 x2 : R) :
  16 - 9 * cos (x1 - x2) ^ 2 <> 0.
Proof.
  pose proof (pendulum_denominator_bounds x1 x2) as Hb.
  unfold pendulum_denominator in Hb. lra.
Qed.

Lemma Rdiv_mult_assoc (c a d : R) : c * a / d = c * (a / d).
Proof. unfold Rdiv. ring. Qed.

Lemma pdiv_ok (a b : R) : b <> 0 -> pdiv a b = Ok (a / b).
Proof. intros Hb. unfold pdiv. destruct (decide (b = 0)); [done | done]. Qed.

Lemma global_pendulum_m st : global (pendulum_globals st) "m" = Ok 0.1.
Proof. unfold global, pendulum_globals. by simplify_map_eq. Qed.
Lemma global_pendulum_L st : global (pendulum_globals st) "L" = Ok 0.5.
Proof. unfold global, pendulum_globals. by simplify_map_eq. Qed.
Lemma global_pendulum_g st : global (pendulum_globals st) "g" = Ok 9.82.
Proof. unfold global, pendulum_globals. by simplify_map_eq. Qed.

(** [dx] in any namespace that binds the three globals to numbers with
    [m * L^2] and [L] nonzero; entries of [x] after the fourth are
    ignored. *)
Lemma dx_numeric (st : store) (m L g x1 x2 x3 x4 t : R) (rest : list R) :
  global st "m" = Ok m -> global st "L" = Ok L -> global st "g" = Ok g ->
  m * L ^ 2 <> 0 -> L <> 0 ->
  dx st (x1 :: x2 :: x3 :: x4 :: rest) t =
  Ok (let dx1 := 6.0 / (m * L ^ 2) * (2 * x3 - 3 * cos (x1 - x2) * x4)
                 / (16 - 9 * cos (x1 - x2) ^ 2) in
      let dx2 := 6.0 / (m * L ^ 2) * (8 * x4 - 3 * cos (x1 - x2) * x3)
                 / (16 - 9 * cos (x1 - x2) ^ 2) in
      [dx1; dx2;
       - (0.5) * m * L ^ 2 * (dx1 * dx2 * sin (x1 - x2) + 3 * (g / L) * sin x1);
       - (0.5) * m * L ^ 2 * (- dx1 * dx2 * sin (x1 - x2) + g / L * sin x2)]).
Proof.
  intros Hm HL Hg HmL HL0.
  unfold dx. rewrite Hm, HL, Hg.
  cbn [getitem lookup list_lookup mbind result_bind].
  rewrite !(pdiv_ok 6.0) by assumption. cbn [mbind result_bind].
  rewrite !pdiv_ok by (try apply pendulum_denominator_nonzero; assumption).
  reflexivity.
Qed.

Lemma dx_notebook (st : store) (x1 x2 x3 x4 t : R) (rest : list R) :
  dx (pendulum_globals st) (x1 :: x2 :: x3 :: x4 :: rest) t
  = Ok (pendulum_rhs x1 x2 x3 x4).
Proof.
  rewrite (dx_numeric _ 0.1 0.5 9.82);
    [ | apply global_pendulum_m | apply global_pendulum_L
      | apply global_pendulum_g | lra | lra ].
  unfold pendulum_rhs. cbv zeta.
  replace 6.0 with 6 by lra. replace (- (0.5)) with (-0.5) by lra.
  rewrite !(Rdiv_mult_assoc (6 / (0.1 * 0.5 ^ 2))). reflexivity.
Qed.

Lemma dx_short (st : store) (x : list R) (t : R) :
  (length x < 4)%nat -> dx st x t = Raise IndexError.
Proof.
  intros Hlen.
  destruct x as [|a [|b [|c [|d rest]]]]; cbn in Hlen; try lia; reflexivity.
Qed.

Lemma long_list_inv {A : Type} (x : list A) :
  (4 <= length x)%nat -> exists a b c d rest, x = a :: b :: c :: d :: rest.
Proof.
  destruct x as [|a [|b [|c [|d rest]]]]; cbn; try lia.
  intros _. by exists a, b, c, d, rest.
Qed.

(** C1. With the globals the notebook assigns, [dx] applied to a
    4-vector returns the four right-hand sides of the double-pendulum
    equations, for every real state and every time. *)
Theorem dx_pendulum_rhs (st : store) (x1 x2 x3 x4 t : R) :
  dx (pendulum_globals st) [x1; x2; x3; x4] t = Ok (pendulum_rhs x1 x2 x3 x4).
Proof. apply dx_notebook. Qed.


(** C3. No division in [dx] can fail: the shared denominator lies in
    [7, 16] and so is never zero, [m * L^2] is 0.025 and [L] is 0.5, both
    nonzero; so [dx] never raises ZeroDivisionError and returns a list
    on every 4-vector. *)
Theorem dx_divisions_defined (st : store) :
  (forall x1 x2 : R, 7 <= pendulum_denominator x1 x2 <= 16
                     /\ pendulum_denominator x1 x2 <> 0)
  /\ global (pendulum_globals st) "m" = Ok 0.1
  /\ global (pendulum_globals st) "L" = Ok 0.5
  /\ 0.1 * 0.5 ^ 2 = 0.025 /\ 0.1 * 0.5 ^ 2 <> 0 /\ 0.5 <> 0
  /\ (forall (x : list R) (t : R),
        dx (pendulum_globals st) x t <> Raise ZeroDivisionError)
  /\ (forall x1 x2 x3 x4 t : R,
        exists l, dx (pendulum_globals st) [x1; x2; x3; x4] t = Ok l).
Proof.
  split.
  { intros x1 x2. pose proof (pendulum_denominator_bounds x1 x2) as Hb.
    split; [exact Hb | lra]. }
  split; [apply global_pendulum_m | ].
  split; [apply global_pendulum_L | ].
  split; [lra | ]. split; [lra | ]. split; [lra | ].
  split.
  - intros x t. destruct (decide (4 <= length x)%nat) as [Hlen | Hlen].
    + destruct (long_list_inv x Hlen) as (a & b & c & d & rest & ->).
      by rewrite dx_notebook.
    + rewrite dx_short by lia. done.
  - intros x1 x2 x3 x4 t. eexists. apply dx_notebook.
Qed.



(** ** [dx] and the program state *)





(** ** Arrays *)

Lemma mapM_result_ok {A B : Type} (h : A -> result B) (k : A -> B) (l : list A) :
  Forall (fun a => h a = Ok (k a)) l -> mapM h l = Ok (k <$> l).
Proof.
  induction 1 as [|a l Ha _ IH]; [reflexivity | ].
  cbn. rewrite Ha. cbn. rewrite IH. reflexivity.
Qed.

Lemma column_ok (x : list (list R)) (j : nat) :
  Forall (fun row => (j < length row)%nat) x ->
  column x j = Ok ((fun row => default 0 (row !! j)) <$> x).
Proof.
  intros Hrows. unfold column. apply mapM_result_ok.
  eapply Forall_impl; [exact Hrows | ].
  intros row Hj. cbn in Hj. unfold getitem.
  destruct (lookup_lt_is_Some_2 row j Hj) as [v ->]. reflexivity.
Qed.

Lemma arr_op_fmap {A : Type} (op : R -> R -> R) (h k : A -> R) (l : list A) :
  arr_op op (h <$> l) (k <$> l) = Ok ((fun a => op (h a) (k a)) <$> l).
Proof.
  unfold arr_op. rewrite !length_fmap.
  destruct (decide (length l = length l)) as [_ | Hne]; [ | done].
  f_equal. rewrite zip_with_fmap_l, zip_with_fmap_r, zip_with_diag.
  reflexivity.
Qed.

(** The four coordinate arrays in closed form. *)
Lemma pendulum_xy_ok (st : store) (L : R) (x : list (list R)) :
  global st "L" = Ok L ->
  Forall (fun row => (2 <= length row)%nat) x ->
  let th j (row : list R) := default 0 (row !! j) in
  pendulum_xy st x =
  Ok (Bobs ((fun row => L * sin (th 0%nat row)) <$> x)
           ((fun row => - L * cos (th 0%nat row)) <$> x)
           ((fun row => L * sin (th 0%nat row) + L * sin (th 1%nat row)) <$> x)
           ((fun row => - L * cos (th 0%nat row) - L * cos (th 1%nat row)) <$> x)).
Proof.
  intros HL Hrows th. unfold pendulum_xy. rewrite HL.
  cbn [mbind result_bind].
  rewrite !(column_ok x 0), !(column_ok x 1)
    by (eapply Forall_impl; [exact Hrows | cbn; lia]).
  cbn [mbind result_bind]. unfold scale.
  rewrite <- !list_fmap_compose.
  rewrite (arr_op_fmap Rplus). cbn [mbind result_bind].
  rewrite (arr_op_fmap Rminus). cbn [mbind result_bind].
  reflexivity.
Qed.

(** C10. In the pendulum plot both rods keep their length: for every
    row of the solution array, the first bob is at distance [L] from the
    origin and the second bob at distance [L] from the first, with
    [L = 0.5]. *)
Theorem pendulum_rods_constant_length (st : store) (x : list (list R)) :
  global st "L" = Ok 0.5 ->
  Forall (fun row => (2 <= length row)%nat) x ->
  exists b : bobs,
    pendulum_xy st x = Ok b
    /\ length (bob_x1 b) = length x /\ length (bob_y1 b) = length x
    /\ length (bob_x2 b) = length x /\ length (bob_y2 b) = length x
    /\ forall (k : nat) (x1 y1 x2 y2 : R),
         bob_x1 b !! k = Some x1 -> bob_y1 b !! k = Some y1 ->
         bob_x2 b !! k = Some x2 -> bob_y2 b !! k = Some y2 ->
         x1 ^ 2 + y1 ^ 2 = 0.5 ^ 2
         /\ (x2 - x1) ^ 2 + (y2 - y1) ^ 2 = 0.5 ^ 2.
Proof.
  intros HL Hrows. eexists. split; [by apply pendulum_xy_ok | ].
  cbn [bob_x1 bob_y1 bob_x2 bob_y2]. rewrite !length_fmap.
  do 4 (split; [reflexivity | ]).
  intros k x1 y1 x2 y2. rewrite !list_lookup_fmap.
  destruct (x !! k) as [row | ]; cbn; [ | discriminate].
  intros [= <-] [= <-] [= <-] [= <-].
  pose proof (sin2_cos2 (default 0 (row !! 0%nat))) as Hsc0.
  pose proof (sin2_cos2 (default 0 (row !! 1%nat))) as Hsc1.
  unfold Rsqr in Hsc0, Hsc1. split; nra.
Qed.

Lemma pendulum_rods_constant_length_witness :
  exists b : bobs,
    pendulum_xy (pendulum_globals ∅) [[0; 1; 0; 0]; [PI; 2; 0; 0]] = Ok b
    /\ length (bob_x1 b) = 2%nat /\ length (bob_y1 b) = 2%nat
    /\ length (bob_x2 b) = 2%nat /\ length (bob_y2 b) = 2%nat
    /\ forall (k : nat) (x1 y1 x2 y2 : R),
         bob_x1 b !! k = Some x1 -> bob_y1 b !! k = Some y1 ->
         bob_x2 b !! k = Some x2 -> bob_y2 b !! k = Some y2 ->
         x1 ^ 2 + y1 ^ 2 = 0.5 ^ 2
         /\ (x2 - x1) ^ 2 + (y2 - y1) ^ 2 = 0.5 ^ 2.
Proof.
  apply (pendulum_rods_constant_length
           (pendulum_globals ∅) [[0; 1; 0; 0]; [PI; 2; 0; 0]]).
  - reflexivity.
  - repeat constructor; cbn; lia.
Defined.

(** ** Positive frequencies *)

Lemma getitem_middle {A : Type} (pre a : list A) (v : A) :
  getitem (pre ++ v :: a) (length pre) = Ok v.
Proof. unfold getitem. by rewrite list_lookup_middle. Qed.

Lemma take_where_from {A : Type} (pre a : list A) (mask : list bool) :
  length a = length mask ->
  take_indices (pre ++ a) (where_from (length pre) mask) = Ok (masked a mask).
Proof.
  revert pre a. induction mask as [|b mask IH]; intros pre a Hlen.
  - destruct a; [reflexivity | discriminate].
  - destruct a as [|v a]; [discriminate | ].
    injection Hlen as Hlen.
    specialize (IH (pre ++ [v]) a Hlen).
    rewrite length_app, Nat.add_1_r, <- app_assoc in IH. cbn [app] in IH.
    unfold take_indices in *.
    destruct b; cbn [where_from].
    + cbn [mapM]. rewrite getitem_middle.
      cbn [mbind result_bind]. rewrite IH. reflexivity.
    + rewrite IH. reflexivity.
Qed.

Lemma where_from_spec (i : nat) (mask : list bool) (n : nat) :
  n ∈ where_from i mask <-> exists j, n = (i + j)%nat /\ mask !! j = Some true.
Proof.
  revert i. induction mask as [|b mask IH]; intros i; cbn [where_from].
  - split; [by intros ?%elem_of_nil | by intros (j & _ & ?)].
  - assert (Htail : n ∈ where_from (S i) mask <->
                    exists j, n = (i + S j)%nat /\ mask !! j = Some true).
    { rewrite IH. split; intros (j & -> & Hj); exists j; split; auto; lia. }
    destruct b.
    + rewrite elem_of_cons, Htail. split.
      * intros [-> | (j & -> & Hj)];
          [exists 0%nat; split; [lia | done] | exists (S j); split; done].
      * intros ([|j] & -> & Hj); [left; lia | right; by exists j].
    + rewrite Htail. split.
      * intros (j & -> & Hj). by exists (S j).
      * intros ([|j] & -> & Hj); [done | by exists j].
Qed.

Lemma where_from_increasing (i : nat) (mask : list bool) :
  Forall (fun n => (i <= n)%nat) (where_from i mask)
  /\ StronglySorted lt (where_from i mask).
Proof.
  revert i. induction mask as [|b mask IH]; intros i; cbn [where_from].
  - split; constructor.
  - destruct (IH (S i)) as [Hge Hsorted].
    assert (Hge' : Forall (fun n => (i <= n)%nat) (where_from (S i) mask))
      by (eapply Forall_impl; [exact Hge | cbn; lia]).
    destruct b; [ | by split].
    split; [constructor; [lia | exact Hge'] | ].
    constructor; [exact Hsorted | ].
    eapply Forall_impl; [exact Hge | cbn; lia].
Qed.

Lemma masked_lookup {A : Type} (a : list A) (mask : list bool) :
  length a = length mask ->
  forall k i, where_from 0 mask !! k = Some i -> masked a mask !! k = a !! i.
Proof.
  intros Hlen k i Hk.
  pose proof (take_where_from [] a mask Hlen) as Htake.
  cbn [app length] in Htake. unfold take_indices in Htake.
  revert k i Hk Htake. generalize (masked a mask) (where_from 0 mask).
  intros out idx. revert out. induction idx as [|n idx IH]; intros out k i Hk.
  - by rewrite lookup_nil in Hk.
  - cbn [mapM]. destruct (getitem a n) as [v|e] eqn:Hn; [ | discriminate].
    unfold getitem in Hn. destruct (a !! n) as [v'|] eqn:Hn'; [ | discriminate].
    injection Hn as ->.
    cbn [mbind result_bind].
    destruct (mapM (getitem a) idx) as [out'|e] eqn:Hrest; [ | discriminate].
    cbn. intros [= <-]. destruct k as [|k]; cbn in Hk |- *.
    + injection Hk as <-. by rewrite Hn'.
    + by apply (IH out').
Qed.

Lemma masked_zip {A B : Type} (a : list A) (b : list B) (mask : list bool) :
  length a = length mask -> length b = length mask ->
  zip (masked a mask) (masked b mask) = masked (zip a b) mask.
Proof.
  revert a b. induction mask as [|c mask IH]; intros a b Ha Hb.
  - destruct a, b; try discriminate. reflexivity.
  - destruct a as [|x a], b as [|y b]; try discriminate.
    injection Ha as Ha. injection Hb as Hb. specialize (IH a b Ha Hb).
    unfold masked in *. cbn [zip zip_with].
    rewrite !filter_cons. cbn [snd].
    destruct c; repeat case_decide; try done; cbn; by rewrite IH.
Qed.

Lemma masked_positive {A : Type} (w : list R) (F : list A) :
  length F = length w ->
  masked (zip w F) (positive_mask w)
  = filter (fun p => 0 < p.1) (zip w F).
Proof.
  revert F. induction w as [|r w IH]; intros F HF.
  - destruct F; [reflexivity | discriminate].
  - destruct F as [|c F]; [discriminate | ]. injection HF as HF.
    specialize (IH F HF). unfold masked, positive_mask in *.
    cbn [fmap list_fmap zip zip_with]. rewrite !filter_cons. cbn [fst snd].
    destruct (decide (0 < r)) as [Hr | Hr].
    + rewrite bool_decide_eq_true_2 by done.
      rewrite decide_True by done. cbn. by rewrite IH.
    + rewrite bool_decide_eq_false_2 by done.
      rewrite decide_False by done. exact IH.
Qed.

Lemma mapM_result_length {A B : Type} (h : A -> result B) (l : list A) (k : list B) :
  mapM h l = Ok k -> length k = length l.
Proof.
  revert k. induction l as [|a l IH]; intros k; cbn [mapM].
  - by intros [= <-].
  - destruct (h a) as [b|e]; [ | discriminate]. cbn [mbind result_bind].
    destruct (mapM h l) as [k'|e]; [ | discriminate]. cbn.
    intros [= <-]. cbn. f_equal. by apply IH.
Qed.

Lemma positive_mask_lookup (w : list R) (j : nat) :
  positive_mask w !! j = Some true <-> exists r, w !! j = Some r /\ 0 < r.
Proof.
  unfold positive_mask. rewrite list_lookup_fmap.
  destruct (w !! j) as [r|]; cbn.
  - split.
    + intros [= Hr%bool_decide_eq_true_1]. by exists r.
    + intros (r' & [= <-] & Hr). by rewrite bool_decide_eq_true_2.
  - split; [discriminate | by intros (r & ? & _)].
Qed.

Lemma masked_positive_self (w : list R) :
  masked w (positive_mask w) = filter (fun r => 0 < r) w.
Proof.
  induction w as [|r w IH]; [reflexivity | ].
  unfold masked, positive_mask in *.
  cbn [fmap list_fmap zip zip_with]. rewrite !filter_cons. cbn [snd].
  destruct (decide (0 < r)) as [Hr | Hr].
  - rewrite bool_decide_eq_true_2 by done.
    rewrite decide_True by done. cbn. by rewrite IH.
  - rewrite bool_decide_eq_false_2 by done.
    rewrite decide_False by done. exact IH.
Qed.

(** C9. The positive-frequency extraction is an order-preserving filter:
    the selected frequencies are all positive, [w_pos] and [F_pos] have
    one length, the [k]-th pair is [(w[i], F[i])] for the [k]-th index
    [i], in increasing order, with [w[i] > 0]; every such index is
    selected and no other. *)
Theorem positive_frequencies_filter {A : Type} (w : list R) (F : list A) :
  length F = length w ->
  exists (indices : list nat) (w_pos : list R) (F_pos : list A),
    positive_frequencies w F = Ok (indices, w_pos, F_pos)
    /\ Forall (fun r => 0 < r) w_pos
    /\ length w_pos = length F_pos
    /\ length w_pos = length indices
    /\ StronglySorted lt indices
    /\ (forall i, i ∈ indices <-> exists r, w !! i = Some r /\ 0 < r)
    /\ (forall k i, indices !! k = Some i ->
          w_pos !! k = w !! i /\ F_pos !! k = F !! i)
    /\ zip w_pos F_pos = filter (fun p => 0 < p.1) (zip w F).
Proof.
  intros HF.
  assert (Hw : length w = length (positive_mask w))
    by (unfold positive_mask; by rewrite length_fmap).
  assert (HF' : length F = length (positive_mask w)) by congruence.
  pose proof (take_where_from [] w _ Hw) as Htw.
  pose proof (take_where_from [] F _ HF') as HtF.
  cbn [app length] in Htw, HtF.
  exists (where_ (positive_mask w)), (masked w (positive_mask w)),
         (masked F (positive_mask w)).
  split; [ | split; [ | split; [ | split; [ | split; [ | split; [ | split]]]]]].
  - unfold positive_frequencies, where_. rewrite Htw, HtF. reflexivity.
  - rewrite masked_positive_self. apply Forall_forall.
    intros r Hr%list_elem_of_filter. tauto.
  - apply mapM_result_length in Htw, HtF. congruence.
  - apply mapM_result_length in Htw. exact Htw.
  - apply where_from_increasing.
  - intros i. unfold where_. rewrite where_from_spec.
    setoid_rewrite positive_mask_lookup.
    split; [intros (j & -> & Hj) | intros Hi; exists i]; auto.
  - intros k i Hk. split; by apply masked_lookup.
  - rewrite masked_zip by done. by apply masked_positive.
Qed.

Lemma positive_frequencies_filter_witness :
  exists (indices : list nat) (w_pos : list R) (F_pos : list string),
    positive_frequencies [0; 1; -1; 2] ["F0"; "F1"; "F2"; "F3"]%string
    = Ok (indices, w_pos, F_pos)
    /\ Forall (fun r => 0 < r) w_pos
    /\ length w_pos = length F_pos
    /\ length w_pos = length indices
    /\ StronglySorted lt indices
    /\ (forall i, i ∈ indices <-> exists r, [0; 1; -1; 2] !! i = Some r /\ 0 < r)
    /\ (forall k i, indices !! k = Some i ->
          w_pos !! k = [0; 1; -1; 2] !! i
          /\ F_pos !! k = ["F0"; "F1"; "F2"; "F3"]%string !! i)
    /\ zip w_pos F_pos
       = filter (fun p => 0 < p.1)
                (zip [0; 1; -1; 2] ["F0"; "F1"; "F2"; "F3"]%string).
Proof.
  apply (positive_frequencies_filter
           [0; 1; -1; 2] ["F0"; "F1"; "F2"; "F3"]%string).
  reflexivity.
Defined.

(** ** Running cells *)

Section ExecFacts.
Variable eval : expr -> store -> result value.
Variable exports : string -> list string.
Variable fuel : nat.

Lemma run_app (pre post : list stmt) (st st1 : store) :
  run eval exports fuel pre st = (st1, Done) ->
  run eval exports fuel (pre ++ post) st = run eval exports fuel post st1.
Proof.
  revert st. induction pre as [|s pre IH]; intros st; cbn [run app].
  - by intros [= ->].
  - destruct (exec eval exports fuel s st) as [st' [ | e | ]];
      [ apply IH | discriminate | discriminate ].
Qed.

Lemma exec_call_site_raises (s : stmt) (st : store) (e : exn) :
  call_site_raises eval s st e ->
  exec eval exports fuel s st = (st, Raised e).
Proof.
  destruct s; cbn [call_site_raises]; try done; intros Hraise; cbn [exec];
    by rewrite Hraise.
Qed.

(** A failing call site ends the cell with its own exception, in the
    namespace the statements before it have left. *)
Lemma run_call_site_raises (pre post : list stmt) (s : stmt)
    (st st1 : store) (e : exn) :
  run eval exports fuel pre st = (st1, Done) ->
  call_site_raises eval s st1 e ->
  run eval exports fuel (pre ++ s :: post) st = (st1, Raised e).
Proof.
  intros Hpre Hraise. rewrite (run_app _ _ _ _ Hpre). cbn [run].
  by rewrite (exec_call_site_raises _ _ _ Hraise).
Qed.

(** The block runner inside [exec] is [run]. *)
Lemma exec_try (body handler : list stmt) (st : store) :
  exec eval exports fuel (Try body handler) st =
  match run eval exports fuel body st with
  | (st', Raised _) => run eval exports fuel handler st'
  | r => r
  end.
Proof.
  cbn [exec].
  assert (Hgo : forall ss st0,
             (fix go (ss : list stmt) (st : store) {struct ss} :=
                match ss with
                | [] => (st, Done)
                | s' :: ss' => match exec eval exports fuel s' st with
                               | (st', Done) => go ss' st'
                               | r => r
                               end
                end) ss st0 = run eval exports fuel ss st0).
  { induction ss as [|s' ss' IH]; intros st0; [reflexivity | ].
    cbn [run]. destruct (exec eval exports fuel s' st0) as [st' [ | e | ]];
      [apply IH | reflexivity | reflexivity]. }
  rewrite !Hgo. destruct (run eval exports fuel body st) as [st' [ | e | ]];
    [reflexivity | apply Hgo | reflexivity].
Qed.

(** A handler, where there is one, does replace the exception: the
    semantics would show a [try] if the notebook had any. *)
Lemma try_catches (s : stmt) (handler : list stmt) (st : store) (e : exn) :
  call_site_raises eval s st e ->
  exec eval exports fuel (Try [s] handler) st
  = run eval exports fuel handler st.
Proof.
  intros Hraise. rewrite exec_try. cbn [run].
  by rewrite (exec_call_site_raises _ _ _ Hraise).
Qed.
End ExecFacts.

Lemma notebook_has_no_handler : sum_list (handlers <$> notebook_stmts) = 0%nat.
Proof. vm_compute. reflexivity. Qed.

Lemma notebook_cells_simple :
  forall cell, cell ∈ notebook_cells -> forallb simple cell = true.
Proof.
  apply Forall_forall.
  repeat (apply Forall_cons; split; [vm_compute; reflexivity | ]).
  apply Forall_nil_2.
Qed.

(** The two [odeint] cells under the native evaluator: whatever the
    library does, an exception of [odeint] is the exception of the cell. *)
Lemma odeint_pendulum_raises (rt : runtime) (exports : string -> list string)
    (fuel : nat) (st : store) (vode vdx vx0 vt : value) (e : exn) :
  st !! "odeint" = Some vode -> st !! "dx" = Some vdx ->
  st !! "x0" = Some vx0 -> st !! "t" = Some vt ->
  rt_call rt vode [vdx; vx0; vt] = Raise e ->
  run (eval_cell rt) exports fuel
      [Assign ["x"] (Call "odeint" ["dx" : expr; "x0" : expr; "t" : expr])] st
  = (st, Raised e).
Proof.
  intros Hode Hdx Hx0 Ht Hraise.
  apply (run_call_site_raises _ _ _ [] []); [reflexivity | ].
  cbn [call_site_raises]. unfold eval_cell. cbn [eval_expr mapM].
  rewrite Hode, Hdx, Hx0, Ht. cbn [mbind result_bind mret result_ret].
  unfold call_value. by destruct vode.
Qed.

Lemma odeint_damped_second_raises (rt : runtime)
    (exports : string -> list string) (fuel : nat) (st : store)
    (vode vdy vy0 vt vw0 y1 : value) (e : exn) (cell : list stmt) :
  Notebook.damped_oscillator.(cells) !! 3%nat = Some cell ->
  st !! "odeint" = Some vode -> st !! "dy" = Some vdy ->
  st !! "y0" = Some vy0 -> st !! "t" = Some vt -> st !! "w0" = Some vw0 ->
  rt_call rt vode [vdy; vy0; vt; VKw "args" (VSeq [VFloat 0.0; vw0])] = Ok y1 ->
  rt_call rt vode [vdy; vy0; vt; VKw "args" (VSeq [VFloat 0.2; vw0])] = Raise e ->
  run (eval_cell rt) exports fuel cell st = (<["y1" := y1]> st, Raised e).
Proof.
  intros [= <-] Hode Hdy Hy0 Ht Hw0 Hfirst Hsecond.
  match goal with
  | |- run _ _ _ (?s1 :: ?s2 :: ?post) _ = _ =>
      apply (run_call_site_raises _ _ _ [s1] post s2)
  end.
  - cbn [run exec]. unfold eval_cell. cbn [eval_expr mapM].
    rewrite Hode, Hdy, Hy0, Ht, Hw0.
    cbn [mbind result_bind mret result_ret fmap result_fmap].
    assert (Hcall : call_value rt vode
                      [vdy; vy0; vt; VKw "args" (VSeq [VFloat 0.0; vw0])]
                    = Ok y1) by (unfold call_value; by destruct vode).
    rewrite Hcall. reflexivity.
  - cbn [call_site_raises]. unfold eval_cell. cbn [eval_expr mapM].
    rewrite !lookup_insert_ne by done.
    rewrite Hode, Hdy, Hy0, Ht, Hw0.
    cbn [mbind result_bind mret result_ret fmap result_fmap].
    unfold call_value. by destruct vode.
Qed.

(** C8. The notebook has no exception handler, every statement of every
    cell is a plain top-level statement, and an exception raised at a
    call site of a cell is the exception the cell raises: the statements
    before it have run, the failing statement changes nothing, the
    statements after it do not run.  In particular an exception of
    [odeint] in the pendulum cell leaves the namespace as it was, and an
    exception of the second [odeint] call of the oscillator cell leaves
    it with [y1] assigned and nothing else changed. *)
Theorem library_errors_propagate :
  sum_list (handlers <$> notebook_stmts) = 0%nat
  /\ (forall cell, cell ∈ notebook_cells -> forallb simple cell = true)
  /\ (forall (eval : expr -> store -> result value)
             (exports : string -> list string) (fuel : nat)
             (cell pre post : list stmt) (s : stmt) (st st1 : store) (e : exn),
        cell ∈ notebook_cells -> cell = pre ++ s :: post ->
        run eval exports fuel pre st = (st1, Done) ->
        call_site_raises eval s st1 e ->
        run eval exports fuel cell st = (st1, Raised e))
  /\ (forall (rt : runtime) (exports : string -> list string) (fuel : nat)
             (st : store) (vode vdx vx0 vt : value) (e : exn),
        st !! "odeint" = Some vode -> st !! "dx" = Some vdx ->
        st !! "x0" = Some vx0 -> st !! "t" = Some vt ->
        rt_call rt vode [vdx; vx0; vt] = Raise e ->
        Notebook.double_pendulum.(cells) !! 4%nat
        = Some [Assign ["x"] (Call "odeint" ["dx" : expr; "x0" : expr; "t" : expr])]
        /\ run (eval_cell rt) exports fuel
               [Assign ["x"] (Call "odeint" ["dx" : expr; "x0" : expr; "t" : expr])]
               st
           = (st, Raised e))
  /\ (forall (rt : runtime) (exports : string -> list string) (fuel : nat)
             (st : store) (vode vdy vy0 vt vw0 y1 : value) (e : exn)
             (cell : list stmt),
        Notebook.damped_oscillator.(cells) !! 3%nat = Some cell ->
        st !! "odeint" = Some vode -> st !! "dy" = Some vdy ->
        st !! "y0" = Some vy0 -> st !! "t" = Some vt ->
        st !! "w0" = Some vw0 ->
        rt_call rt vode [vdy; vy0; vt; VKw "args" (VSeq [VFloat 0.0; vw0])]
        = Ok y1 ->
        rt_call rt vode [vdy; vy0; vt; VKw "args" (VSeq [VFloat 0.2; vw0])]
        = Raise e ->
        run (eval_cell rt) exports fuel cell st
        = (<["y1" := y1]> st, Raised e)).
Proof.
  split; [exact notebook_has_no_handler | ].
  split; [exact notebook_cells_simple | ].
  split; [ | split].
  - intros eval exports fuel cell pre post s st st1 e _ -> Hpre Hraise.
    by apply run_call_site_raises.
  - intros rt exports fuel st vode vdx vx0 vt e Hode Hdx Hx0 Ht Hraise.
    split; [reflexivity | by eapply odeint_pendulum_raises].
  - intros rt exports fuel st vode vdy vy0 vt vw0 y1 e cell.
    apply odeint_damped_second_raises.
Qed.

Lemma library_errors_propagate_witness :
  run (eval_cell failing_runtime) (fun _ => []) 0
      [ Assign ["N"] (Call "len" ["t" : expr]);
        Assign ["dt"] (Index "t" [Int 1] - Index "t" [Int 0]);
        Assign ["F"] (Call "fft" [Index "y2" [FullSlice; Int 0]]);
        Assign ["w"] (Call "fftfreq" ["N" : expr; "dt" : expr]) ]%py
      (fourier_namespace [0; 5; 10]%Z)
  = (<["dt" := VInt 5]> (<["N" := VInt 3]> (fourier_namespace [0; 5; 10]%Z)),
     Raised (LibraryError 1)).
Proof.
  apply (proj1 (proj2 (proj2 library_errors_propagate))
           (eval_cell failing_runtime) (fun _ => []) 0%nat _
           [ Assign ["N"] (Call "len" ["t" : expr]);
             Assign ["dt"] (Index "t" [Int 1] - Index "t" [Int 0]) ]%py
           [ Assign ["w"] (Call "fftfreq" ["N" : expr; "dt" : expr]) ]%py
           (Assign ["F"] (Call "fft" [Index "y2" [FullSlice; Int 0]]))%py).
  - unfold notebook_cells. cbn.
    repeat first [ apply list_elem_of_here | apply list_elem_of_further ].
  - reflexivity.
  - vm_compute. reflexivity.
  - vm_compute. reflexivity.
Defined.

(** ** Namespaces that agree on the names a block reads *)

Lemma agree_weaken (X Y : list string) (st st' : store) :
  (forall x, x ∈ X -> x ∈ Y) -> agree Y st st' -> agree X st st'.
Proof. intros Hsub Hagree x Hx. apply Hagree, Hsub, Hx. Qed.

Lemma agree_insert (X : list string) (x : string) (v : value) (st st' : store) :
  agree X st st' -> agree (x :: X) (<[x := v]> st) (<[x := v]> st').
Proof.
  intros Hagree y Hy. destruct (decide (y = x)) as [-> | Hne].
  - by rewrite !lookup_insert_eq.
  - rewrite !lookup_insert_ne by done. apply Hagree.
    apply elem_of_cons in Hy as [Hy | Hy]; [done | exact Hy].
Qed.

Lemma agree_import (X ns : list string) (st st' : store) :
  agree X st st' -> agree (ns ++ X) (import_names ns st) (import_names ns st').
Proof.
  intros Hagree. induction ns as [|n ns IH]; [exact Hagree | ].
  cbn [import_names foldr app]. by apply agree_insert.
Qed.

Lemma agree_bind_pairs (X : list string) (ps : list (string * value))
    (st st' : store) :
  agree X st st' ->
  agree (ps.*1 ++ X) (foldl (fun s p => <[p.1 := p.2]> s) st ps)
                     (foldl (fun s p => <[p.1 := p.2]> s) st' ps).
Proof.
  revert X st st'. induction ps as [|[x v] ps IH]; intros X st st' Hagree;
    [exact Hagree | ].
  cbn [foldl fmap list_fmap app fst snd].
  eapply agree_weaken; [ | apply (IH (x :: X)); by apply agree_insert].
  intros y. rewrite !elem_of_cons, !elem_of_app, !elem_of_cons. tauto.
Qed.

Lemma agree_bind_targets (X targets : list string) (v : value) (st st' : store) :
  agree X st st' ->
  match bind_targets targets v st, bind_targets targets v st' with
  | Ok st1, Ok st1' => agree (targets ++ X) st1 st1'
  | Raise e, Raise e' => e = e'
  | _, _ => False
  end.
Proof.
  intros Hagree. unfold bind_targets.
  assert (Hseq : forall vs, length vs = length targets ->
            agree (targets ++ X)
              (foldl (fun s p => <[p.1 := p.2]> s) st (zip targets vs))
              (foldl (fun s p => <[p.1 := p.2]> s) st' (zip targets vs))).
  { intros vs Hlen.
    pose proof (agree_bind_pairs X (zip targets vs) st st' Hagree) as Hps.
    rewrite fst_zip in Hps by lia. exact Hps. }
  destruct targets as [|x [|x' targets]].
  - destruct v; try done.
    destruct (Nat.eqb_spec (length vs) (length (@nil string)));
      [by apply Hseq | done].
  - by apply agree_insert.
  - destruct v; try done.
    destruct (Nat.eqb_spec (length vs) (length (x :: x' :: targets)));
      [by apply Hseq | done].
Qed.

Section Frame.
Variable eval : expr -> store -> result value.
Variable exports : string -> list string.
Variable fuel : nat.

Lemma eval_all_agree (es : list expr) (st st' : store) :
  local_on eval es -> agree (es ≫= names) st st' ->
  eval_all eval es st = eval_all eval es st'.
Proof.
  unfold eval_all. induction es as [|e es IH]; intros Hlocal Hagree;
    [reflexivity | ].
  cbn [mapM]. rewrite (Hlocal e (list_elem_of_here _ _) st st').
  - rewrite IH; [reflexivity | | ].
    + intros e' He'. apply Hlocal. by apply list_elem_of_further.
    + eapply agree_weaken; [ | exact Hagree].
      intros x Hx. cbn. apply elem_of_app. by right.
  - eapply agree_weaken; [ | exact Hagree].
    intros x Hx. cbn. apply elem_of_app. by left.
Qed.

(** One plain statement, run in two namespaces that agree on what it
    reads: same outcome, and what it binds is bound alike. *)
Lemma exec_agree (s : stmt) (K : list string) (st st' : store) :
  simple s = true ->
  local_on eval (stmt_exprs s) ->
  (forall x, x ∈ reads s -> x ∈ K) ->
  agree K st st' ->
  (exec eval exports fuel s st).2 = (exec eval exports fuel s st').2
  /\ agree K (exec eval exports fuel s st).1 (exec eval exports fuel s st').1
  /\ ((exec eval exports fuel s st).2 = Done ->
      agree (assigned s ++ imported s ++ K)
            (exec eval exports fuel s st).1 (exec eval exports fuel s st').1).
Proof.
  intros Hsimple Hlocal Hreads Hagree.
  destruct s; try discriminate; cbn [exec assigned imported app].
  - (* Assign *)
    rewrite (Hlocal e (list_elem_of_here _ _) st st')
      by (eapply agree_weaken; [exact Hreads | exact Hagree]).
    destruct (eval e st') as [v | x]; [ | by repeat split].
    pose proof (agree_bind_targets K targets v st st' Hagree) as Hbind.
    destruct (bind_targets targets v st) as [st1 | x],
             (bind_targets targets v st') as [st1' | x']; try done;
      cbn [fst snd].
    + repeat split; [ | intros _; exact Hbind].
      eapply agree_weaken; [ | exact Hbind].
      intros y Hy. apply elem_of_app. by right.
    + subst x'. by repeat split.
  - (* ExprStmt *)
    rewrite (Hlocal e (list_elem_of_here _ _) st st')
      by (eapply agree_weaken; [exact Hreads | exact Hagree]).
    destruct (eval e st') as [v | x]; by repeat split.
  - (* Def *)
    cbn [fst snd]. repeat split.
    + eapply agree_weaken; [ | apply (agree_insert K name), Hagree].
      intros y Hy. apply elem_of_cons. by right.
    + intros _. by apply agree_insert.
  - (* Import *)
    cbn [fst snd]. repeat split.
    + eapply agree_weaken; [ | apply (agree_import K names0), Hagree].
      intros y Hy. apply elem_of_app. by right.
    + intros _. by apply agree_import.
  - (* ImportStar *)
    cbn [fst snd]. repeat split; [ | intros _].
    all: eapply agree_weaken; [ | apply (agree_import K (exports module)), Hagree].
    all: intros y Hy; apply elem_of_app; by right.
  - (* Magic *)
    cbn [fst snd]. repeat split; [ | intros _].
    all: eapply agree_weaken; [ | apply (agree_import K (exports line)), Hagree].
    all: intros y Hy; apply elem_of_app; by right.
  - (* Print *)
    rewrite (eval_all_agree es st st' Hlocal)
      by (eapply agree_weaken; [exact Hreads | exact Hagree]).
    destruct (eval_all eval es st') as [v | x]; by repeat split.
Qed.
End Frame.

Section FrameRun.
Variable eval : expr -> store -> result value.
Variable exports : string -> list string.
Variable fuel : nat.

(** A list of plain statements, run in two namespaces that agree on
    the names [X] it reads from outside and on the names [known]
    bound before it. *)
Lemma run_agree (X : list string) (ss : list stmt) :
  forall (known : list string) (st st' : store),
    forallb simple ss = true ->
    local_on eval (ss ≫= stmt_exprs) ->
    (forall x, x ∈ inflow_from known ss -> x ∈ X) ->
    agree (known ++ X) st st' ->
    (run eval exports fuel ss st).2 = (run eval exports fuel ss st').2
    /\ ((run eval exports fuel ss st).2 = Done ->
        agree ((ss ≫= assigned) ++ known ++ X)
              (run eval exports fuel ss st).1 (run eval exports fuel ss st').1).
Proof.
  induction ss as [|s ss IH]; intros known st st' Hsimple Hlocal Hin Hagree.
  - cbn. split; [reflexivity | intros _; exact Hagree].
  - cbn [forallb] in Hsimple. apply andb_prop in Hsimple as [Hs Hss].
    assert (Hlocal_s : local_on eval (stmt_exprs s)).
    { intros e He. apply Hlocal. cbn. apply elem_of_app. by left. }
    assert (Hlocal_ss : local_on eval (ss ≫= stmt_exprs)).
    { intros e He. apply Hlocal. cbn. apply elem_of_app. by right. }
    assert (Hreads : forall x, x ∈ reads s -> x ∈ known ++ X).
    { intros x Hx. apply elem_of_app.
      destruct (decide (x ∈ known)) as [Hk | Hk]; [by left | right].
      apply Hin. cbn [inflow_from]. apply elem_of_app. left.
      by apply list_elem_of_filter. }
    destruct (exec_agree eval exports fuel s (known ++ X) st st'
                Hs Hlocal_s Hreads Hagree) as (Hout & _ & Hdone).
    cbn [run].
    destruct (exec eval exports fuel s st) as [st1 o1],
             (exec eval exports fuel s st') as [st1' o1'].
    cbn [fst snd] in Hout, Hdone. subst o1'.
    destruct o1 as [ | e | ];
      [ | cbn; split; [reflexivity | discriminate]
        | cbn; split; [reflexivity | discriminate] ].
    specialize (Hdone eq_refl).
    destruct (IH (assigned s ++ imported s ++ known) st1 st1' Hss Hlocal_ss)
      as [Hout' Hdone'].
    + intros x Hx. apply Hin. cbn [inflow_from]. apply elem_of_app. by right.
    + by rewrite <- !app_assoc.
    + split; [exact Hout' | ].
      intros Hd. eapply agree_weaken; [ | exact (Hdone' Hd)].
      intros x. cbn. rewrite !elem_of_app. tauto.
Qed.

(** The same for a block of the notebook, from its free names. *)
Lemma block_agree (b : block) (st st' : store) :
  forallb simple (block_stmts b) = true ->
  local_on eval (block_stmts b ≫= stmt_exprs) ->
  agree (free_names b) st st' ->
  (run eval exports fuel (block_stmts b) st).2
  = (run eval exports fuel (block_stmts b) st').2
  /\ ((run eval exports fuel (block_stmts b) st).2 = Done ->
      agree (block_assigned b)
            (run eval exports fuel (block_stmts b) st).1
            (run eval exports fuel (block_stmts b) st').1).
Proof.
  intros Hsimple Hlocal Hagree.
  destruct (run_agree (free_names b) (block_stmts b) [] st st'
              Hsimple Hlocal) as [Hout Hdone].
  - intros x Hx. unfold free_names. by apply elem_of_remove_dups.
  - exact Hagree.
  - split; [exact Hout | ]. intros Hd.
    eapply agree_weaken; [ | exact (Hdone Hd)].
    intros x Hx. unfold block_assigned in Hx.
    rewrite elem_of_remove_dups in Hx. apply elem_of_app. by left.
Qed.
End FrameRun.

(** The native evaluator reads the namespace only at the names of the
    expression. *)
Lemma mapM_result_ext {A B : Type} (h k : A -> result B) (l : list A) :
  Forall (fun a => h a = k a) l -> mapM h l = mapM k l.
Proof.
  induction 1 as [|a l Ha _ IH]; [reflexivity | ].
  cbn [mapM]. by rewrite Ha, IH.
Qed.

Lemma eval_expr_local (rt : runtime) (e : expr) :
  forall look look' : string -> option value,
    (forall x, x ∈ names e -> look x = look' x) ->
    eval_expr rt look e = eval_expr rt look' e.
Proof.
  induction e as [ x | n | r | s | e field IH | fn args IHfn IHargs
                 | key e IH | e ix IH IHix | | e IH | e IH | op a b IHa IHb
                 | es IHes | es IHes ] using expr_nested_ind;
    intros look look' Hlook; cbn [eval_expr names] in *.
  - rewrite (Hlook x); [reflexivity | apply list_elem_of_here].
  - reflexivity.
  - reflexivity.
  - reflexivity.
  - by rewrite (IH look look').
  - rewrite (IHfn look look')
      by (intros x Hx; apply Hlook, elem_of_app; by left).
    rewrite (mapM_result_ext (eval_expr rt look) (eval_expr rt look'));
      [reflexivity | ].
    apply Forall_forall. intros a Ha.
    rewrite Forall_forall in IHargs. apply (IHargs a Ha).
    intros x Hx. apply Hlook, elem_of_app. right.
    apply list_elem_of_bind. by exists a.
  - by rewrite (IH look look').
  - rewrite (IH look look')
      by (intros x Hx; apply Hlook, elem_of_app; by left).
    rewrite (mapM_result_ext (eval_expr rt look) (eval_expr rt look'));
      [reflexivity | ].
    apply Forall_forall. intros a Ha.
    rewrite Forall_forall in IHix. apply (IHix a Ha).
    intros x Hx. apply Hlook, elem_of_app. right.
    apply list_elem_of_bind. by exists a.
  - reflexivity.
  - by rewrite (IH look look').
  - by rewrite (IH look look').
  - rewrite (IHa look look')
      by (intros x Hx; apply Hlook, elem_of_app; by left).
    rewrite (IHb look look')
      by (intros x Hx; apply Hlook, elem_of_app; by right).
    reflexivity.
  - rewrite (mapM_result_ext (eval_expr rt look) (eval_expr rt look'));
      [reflexivity | ].
    apply Forall_forall. intros a Ha.
    rewrite Forall_forall in IHes. apply (IHes a Ha).
    intros x Hx. apply Hlook. apply list_elem_of_bind. by exists a.
  - rewrite (mapM_result_ext (eval_expr rt look) (eval_expr rt look'));
      [reflexivity | ].
    apply Forall_forall. intros a Ha.
    rewrite Forall_forall in IHes. apply (IHes a Ha).
    intros x Hx. apply Hlook. apply list_elem_of_bind. by exists a.
Qed.

Lemma eval_cell_local (rt : runtime) (es : list expr) :
  local_on (eval_cell rt) es.
Proof.
  intros e _ st st' Hagree. unfold eval_cell.
  apply eval_expr_local. exact Hagree.
Qed.

Lemma agree_Forall (X : list string) (st st' : store) :
  Forall (fun x => st !! x = st' !! x) X -> agree X st st'.
Proof. intros HX x Hx. by apply (proj1 (Forall_forall _ _) HX). Qed.

(** C7, as the specification states it, fails.  The Fourier block reads
    [t] and [y2], which it does not assign; and two runs that agree on
    every variable the block assigns, but come with time grids of two
    and of three points, leave different values in [N]. *)
Lemma fourier_block_reads_other_block :
  ~ (forall b : block, b ∈ Notebook.blocks -> inflow b = [])
  /\ ~ (forall (eval : expr -> store -> result value)
               (exports : string -> list string) (fuel : nat)
               (st st' : store),
          local_on eval (block_stmts Notebook.fourier_transform ≫= stmt_exprs) ->
          agree (block_assigned Notebook.fourier_transform) st st' ->
          (run eval exports fuel (block_stmts Notebook.fourier_transform) st).2
          = (run eval exports fuel (block_stmts Notebook.fourier_transform) st').2
          /\ ((run eval exports fuel (block_stmts Notebook.fourier_transform) st).2
              = Done ->
              agree (block_assigned Notebook.fourier_transform)
                (run eval exports fuel (block_stmts Notebook.fourier_transform) st).1
                (run eval exports fuel (block_stmts Notebook.fourier_transform) st').1)).
Proof.
  split.
  - intros Hclaim.
    specialize (Hclaim Notebook.fourier_transform).
    assert (Hin : Notebook.fourier_transform ∈ Notebook.blocks).
    { unfold Notebook.blocks.
      repeat first [ apply list_elem_of_here | apply list_elem_of_further ]. }
    specialize (Hclaim Hin). vm_compute in Hclaim. discriminate.
  - intros Hclaim.
    specialize (Hclaim (eval_cell obliging_runtime) (fun _ => []) 0%nat
                  (fourier_namespace [0; 1]%Z) (fourier_namespace [0; 1; 2]%Z)
                  (eval_cell_local _ _)).
    destruct Hclaim as [_ Hdone].
    + apply agree_Forall.
      repeat (apply Forall_cons; split; [vm_compute; reflexivity | ]).
      apply Forall_nil_2.
    + assert (HN : "N" ∈ block_assigned Notebook.fourier_transform).
      { vm_compute. apply list_elem_of_here. }
      specialize (Hdone ltac:(vm_compute; reflexivity) "N" HN).
      vm_compute in Hdone. discriminate.
Qed.

(** C7, amended.  Besides names of the library, a block reads only
    variables it has assigned itself, with two exceptions: the pendulum
    animation reads [t], [L] and [x] from the double-pendulum block, and
    the Fourier block reads [t] and [y2] from the damped-oscillator
    block.  Two runs of the Fourier block in namespaces that agree on the
    names it reads from outside, with an evaluator whose results depend
    only on the variables an expression names, raise the same exception
    or both complete with equal values in every variable the block
    assigns. *)
Theorem block_dataflow :
  dataflow =
    [ ("Introduction", []);
      ("Ordinary differential equations (ODEs)", []);
      ("Example: double pendulum", []);
      ("Simple annimation of the pendulum motion.",
       [ ("t", Some "Example: double pendulum");
         ("L", Some "Example: double pendulum");
         ("x", Some "Example: double pendulum") ]);
      ("Example: Damped harmonic oscillator", []);
      ("Fourier transform",
       [ ("t", Some "Example: Damped harmonic oscillator");
         ("y2", Some "Example: Damped harmonic oscillator") ]);
      ("Optimization", []);
      ("Interpolation", []);
      ("Statistics", []);
      ("Further reading", []) ]%string
  /\ free_names Notebook.fourier_transform
     = ["len"; "t"; "fft"; "y2"; "fftfreq"; "where"; "subplots"; "abs"]%string
  /\ forall (eval : expr -> store -> result value)
            (exports : string -> list string) (fuel : nat) (st st' : store),
       local_on eval (block_stmts Notebook.fourier_transform ≫= stmt_exprs) ->
       agree (free_names Notebook.fourier_transform) st st' ->
       (run eval exports fuel (block_stmts Notebook.fourier_transform) st).2
       = (run eval exports fuel (block_stmts Notebook.fourier_transform) st').2
       /\ ((run eval exports fuel (block_stmts Notebook.fourier_transform) st).2
           = Done ->
           agree (block_assigned Notebook.fourier_transform)
             (run eval exports fuel (block_stmts Notebook.fourier_transform) st).1
             (run eval exports fuel (block_stmts Notebook.fourier_transform) st').1).
Proof.
  split; [vm_compute; reflexivity | ].
  split; [vm_compute; reflexivity | ].
  intros eval exports fuel st st' Hlocal Hagree.
  apply block_agree; [vm_compute; reflexivity | exact Hlocal | exact Hagree].
Qed.

Lemma block_dataflow_witness :
  let st := fourier_namespace [0; 1]%Z in
  let st' := <["x_min" := VObj "array"]> (fourier_namespace [0; 1]%Z) in
  let go := run (eval_cell obliging_runtime) (fun _ => []) 0
                (block_stmts Notebook.fourier_transform) in
  (go st).2 = (go st').2
  /\ ((go st).2 = Done ->
      agree (block_assigned Notebook.fourier_transform) (go st).1 (go st').1).
Proof.
  intros st st' go.
  apply (proj2 (proj2 block_dataflow)
           (eval_cell obliging_runtime) (fun _ => []) 0%nat st st').
  - apply eval_cell_local.
  - apply agree_Forall.
    repeat (apply Forall_cons; split; [vm_compute; reflexivity | ]).
    apply Forall_nil_2.
Defined.

(** ** The notebook's functions, interpreted *)

Ltac norm_nat :=
  repeat match goal with
         | |- context [Z.to_nat ?z] =>
             let n := eval vm_compute in (Z.to_nat z) in
             change (Z.to_nat z) with n
         end.

Ltac step :=
  cbn -[cos sin Rmult Rplus Rminus Rdiv pow Ropp IZR Rinv pdiv]; norm_nat;
  cbn -[cos sin Rmult Rplus Rminus Rdiv pow Ropp IZR Rinv pdiv].

(** Interpreting the body of [dx] gives what the function [dx] above
    gives, exception for exception. *)
Lemma call_dx (rt : runtime) (st : store) (x : list R) (t : R) :
  st !! "cos" = Some (VObj "cos") -> st !! "sin" = Some (VObj "sin") ->
  float_or_unbound st "g" -> float_or_unbound st "L" ->
  float_or_unbound st "m" ->
  call_def rt st (VFun ["x"; "t"] Notebook.dx_body) [VArr x; VFloat t]
  = VArr <$> dx st x t.
Proof.
  intros Hcos Hsin Hg HL Hm. unfold float_or_unbound in *.
  destruct x as [|a [|b [|c [|d rest]]]]; try reflexivity.
  unfold call_def, dx, global, Notebook.dx_body. step.
  rewrite ?Hcos, ?Hsin.
  destruct (st !! "m") as [[] | ] eqn:Em; try done;
    destruct (st !! "L") as [[] | ] eqn:EL; try done;
    destruct (st !! "g") as [[] | ] eqn:Eg; try done.
  all: step; try reflexivity.
  all: rewrite ?Hcos, ?Hsin; step; try reflexivity.
  all: repeat (step; try reflexivity; unfold pdiv;
               match goal with
               | |- context [decide (?u = 0)] => destruct (decide (u = 0))
               end).
  all: step; reflexivity.
Qed.

Lemma call_dy (rt : runtime) (st : store) (y : list R) (t zeta w0 : R) :
  call_def rt st (VFun ["y"; "t"; "zeta"; "w0"] Notebook.dy_body)
           [VArr y; VFloat t; VFloat zeta; VFloat w0]
  = VArr <$> dy y t zeta w0.
Proof. destruct y as [|a [|b rest]]; reflexivity. Qed.

Lemma call_f_optimization (rt : runtime) (st : store) (x : R) :
  call_def rt st (VFun ["x"] Notebook.f_optimization_body) [VFloat x]
  = Ok (VFloat (Optimization.f x)).
Proof. reflexivity. Qed.

(** On an int the same body computes in the integers, and agrees with
    the real function. *)
Lemma call_f_optimization_int (rt : runtime) (st : store) (n : Z) :
  exists k : Z,
    call_def rt st (VFun ["x"] Notebook.f_optimization_body) [VInt n]
    = Ok (VInt k)
    /\ IZR k = Optimization.f (IZR n).
Proof.
  exists (4 * n ^ 3 + (n - 2) ^ 2 + n ^ 4)%Z. split; [reflexivity | ].
  unfold Optimization.f.
  change (n ^ 3)%Z with (n ^ Z.of_nat 3)%Z.
  change ((n - 2) ^ 2)%Z with ((n - 2) ^ Z.of_nat 2)%Z.
  change (n ^ 4)%Z with (n ^ Z.of_nat 4)%Z.
  rewrite !plus_IZR, mult_IZR, <- !pow_IZR, minus_IZR.
  reflexivity.
Qed.

Lemma call_f_interpolation (rt : runtime) (st : store) (x : R) :
  st !! "sin" = Some (VObj "sin") ->
  call_def rt st (VFun ["x"] Notebook.f_interpolation_body) [VFloat x]
  = Ok (VFloat (Interpolation.f x)).
Proof.
  intros Hsin. unfold call_def, Notebook.f_interpolation_body. step.
  rewrite Hsin. reflexivity.
Qed.

(** ** Straight-line bodies never leave the interpreter *)

Lemma bind_not_raise {A B : Type} (r : result A) (k : A -> result B) (x : exn) :
  r <> Raise x -> (forall a, k a <> Raise x) -> r ≫= k <> Raise x.
Proof. intros Hr Hk. destruct r as [a | e]; cbn; [apply Hk | congruence]. Qed.

Lemma fmap_not_raise {A B : Type} (r : result A) (h : A -> B) (x : exn) :
  r <> Raise x -> h <$> r <> Raise x.
Proof. intros Hr. destruct r as [a | e]; cbn; [done | congruence]. Qed.

Lemma mapM_not_raise {A B : Type} (h : A -> result B) (l : list A) (x : exn) :
  Forall (fun a => h a <> Raise x) l -> mapM h l <> Raise x.
Proof.
  induction 1 as [|a l Ha _ IH]; cbn [mapM]; [done | ].
  apply bind_not_raise; [exact Ha | intros b].
  apply bind_not_raise; [exact IH | done].
Qed.

Lemma getitem_not_unsupported {A : Type} (a : list A) (i : nat) :
  getitem a i <> Raise Unsupported.
Proof. unfold getitem. by destruct (a !! i). Qed.

Lemma pdiv_not_unsupported (a b : R) : pdiv a b <> Raise Unsupported.
Proof. unfold pdiv. by case_decide. Qed.

Section Supported.
Variable rt : runtime.
Hypothesis Hrt : python_runtime rt.

Lemma binop_value_supported (op : binop) (a b : value) :
  binop_value rt op a b <> Raise Unsupported.
Proof.
  destruct Hrt as (_ & _ & _ & _ & _ & Hbin).
  assert (Hint : forall x y,
            default (rt_binop rt op a b) (int_binop op x y)
            <> Raise Unsupported).
  { intros x y. destruct op; cbn; try done.
    - by destruct (y =? 0)%Z.
    - destruct (0 <=? y)%Z; [done | apply Hbin]. }
  assert (Hfloat : forall x y,
            default (rt_binop rt op a b) (float_binop op x b y)
            <> Raise Unsupported).
  { intros x y. destruct op; cbn; try done.
    - apply fmap_not_raise, pdiv_not_unsupported.
    - destruct b; try apply Hbin. destruct (0 <=? n)%Z; [done | apply Hbin]. }
  unfold binop_value.
  destruct a; try apply Hbin; destruct b; cbn [as_real];
    first [apply Hint | apply Hfloat | apply Hbin].
Qed.

Lemma call_value_supported (fn : value) (args : list value) :
  call_value rt fn args <> Raise Unsupported.
Proof.
  destruct Hrt as (Hcall & _).
  unfold call_value.
  destruct fn; try apply Hcall.
  destruct args as [|a [|a' args]]; try apply Hcall.
  repeat match goal with
         | |- context [String.eqb ?s ?s'] => destruct (String.eqb s s')
         end;
    try apply Hcall; destruct a; cbn [as_real]; try done; apply Hcall.
Qed.

Lemma index_value_supported (v : value) (ix : list value) :
  index_value rt v ix <> Raise Unsupported.
Proof.
  destruct Hrt as (_ & _ & Hindex & _).
  unfold index_value.
  destruct v; try apply Hindex.
  destruct ix as [|[] [|i' ix]]; try apply Hindex.
  destruct (0 <=? n)%Z; [apply getitem_not_unsupported | apply Hindex].
Qed.

Lemma eval_expr_supported (e : expr) :
  forall look, eval_expr rt look e <> Raise Unsupported.
Proof.
  pose proof Hrt as (_ & Hattr & _ & Hneg & Hpos & _).
  induction e as [ x | n | r | s | e field IH | fn args IHfn IHargs
                 | key e IH | e ix IH IHix | | e IH | e IH | op a b IHa IHb
                 | es IHes | es IHes ] using expr_nested_ind;
    intros look; cbn [eval_expr]; try done.
  - by destruct (look x).
  - apply bind_not_raise; [apply IH | intros v; apply Hattr].
  - apply bind_not_raise; [apply IHfn | intros f].
    apply bind_not_raise; [ | intros vs; apply call_value_supported].
    apply mapM_not_raise. eapply Forall_impl; [exact IHargs | ].
    intros a Ha. apply Ha.
  - apply bind_not_raise; [apply IH | done].
  - apply bind_not_raise; [apply IH | intros v].
    apply bind_not_raise; [ | intros vs; apply index_value_supported].
    apply mapM_not_raise. eapply Forall_impl; [exact IHix | ].
    intros a Ha. apply Ha.
  - apply bind_not_raise; [apply IH | intros v].
    destruct v; cbn; try done; apply Hneg.
  - apply bind_not_raise; [apply IH | intros v].
    destruct v; cbn; try done; apply Hpos.
  - apply bind_not_raise; [apply IHa | intros va].
    apply bind_not_raise; [apply IHb | intros vb].
    apply binop_value_supported.
  - apply fmap_not_raise, mapM_not_raise.
    eapply Forall_impl; [exact IHes | ]. intros a Ha. apply Ha.
  - apply fmap_not_raise, mapM_not_raise.
    eapply Forall_impl; [exact IHes | ]. intros a Ha. apply Ha.
Qed.

Lemma bind_locals_supported (targets : list string) (v : value) (fr : locals) :
  bind_locals targets v fr <> Raise Unsupported.
Proof.
  unfold bind_locals. destruct targets as [|x [|x' targets]]; try done;
    destruct v; try done;
    match goal with |- context [(?a =? ?b)%nat] => by destruct (a =? b)%nat end.
Qed.

Lemma run_body_supported (globals : store) (body : list stmt) :
  straight_line body = true ->
  forall fr, run_body rt globals fr body <> Raise Unsupported.
Proof.
  induction body as [|s body IH]; intros Hsl fr; [done | ].
  cbn [straight_line forallb] in Hsl. apply andb_prop in Hsl as [Hs Hbody].
  destruct s; try discriminate; cbn [run_body].
  - apply bind_not_raise; [apply eval_expr_supported | intros v].
    apply bind_not_raise; [apply bind_locals_supported | intros fr'].
    by apply IH.
  - apply eval_expr_supported.
Qed.

Lemma call_def_supported (globals : store) (params : list string)
    (body : list stmt) (args : list value) :
  straight_line body = true ->
  call_def rt globals (VFun params body) args <> Raise Unsupported.
Proof.
  intros Hsl. cbn [call_def].
  destruct (length params =? length args)%nat;
    [by apply run_body_supported | done].
Qed.
End Supported.

(** C5. The notebook defines four functions ([dx], [dy] and two called
    [f]); each body is a sequence of assignments and a return, with no
    loop and no call of a function of the notebook, so none is recursive
    or iterates.  A call therefore returns on every input: for all
    arguments, every namespace and every behaviour of the library the
    interpreter, which has no loop construct to run, yields a value or a
    Python exception; on numbers these are the values of [dx], [dy] and
    [f] above. *)
Theorem repository_functions_terminate :
  def_summary <$> notebook_defs
  = [ ("dx", true, 0%nat, ["cos"; "m"; "g"; "L"; "sin"], []);
      ("dy", true, 0%nat, [], []);
      ("f", true, 0%nat, [], []);
      ("f", true, 0%nat, ["sin"], []) ]%string
  /\ (forall (rt : runtime) (st : store) (d : string * list string * list stmt)
             (args : list value),
        python_runtime rt -> d ∈ notebook_defs ->
        exists r : result value,
          call_def rt st (VFun d.1.2 d.2) args = r /\ r <> Raise Unsupported)
  /\ (forall (rt : runtime) (st : store) (x : list R) (t : R),
        st !! "cos" = Some (VObj "cos") -> st !! "sin" = Some (VObj "sin") ->
        float_or_unbound st "g" -> float_or_unbound st "L" ->
        float_or_unbound st "m" ->
        call_def rt st (VFun ["x"; "t"] Notebook.dx_body) [VArr x; VFloat t]
        = VArr <$> dx st x t)
  /\ (forall (rt : runtime) (st : store) (y : list R) (t zeta w0 : R),
        call_def rt st (VFun ["y"; "t"; "zeta"; "w0"] Notebook.dy_body)
                 [VArr y; VFloat t; VFloat zeta; VFloat w0]
        = VArr <$> dy y t zeta w0)
  /\ (forall (rt : runtime) (st : store) (x : R),
        call_def rt st (VFun ["x"] Notebook.f_optimization_body) [VFloat x]
        = Ok (VFloat (Optimization.f x)))
  /\ (forall (rt : runtime) (st : store) (x : R),
        st !! "sin" = Some (VObj "sin") ->
        call_def rt st (VFun ["x"] Notebook.f_interpolation_body) [VFloat x]
        = Ok (VFloat (Interpolation.f x))).
Proof.
  split; [vm_compute; reflexivity | ].
  split; [ | split; [exact call_dx | split; [exact call_dy | split;
             [exact call_f_optimization | exact call_f_interpolation]]]].
  intros rt st d args Hrt Hd. eexists. split; [reflexivity | ].
  apply call_def_supported; [exact Hrt | ].
  revert d Hd. apply Forall_forall.
  repeat (apply Forall_cons; split; [vm_compute; reflexivity | ]).
  apply Forall_nil_2.
Qed.

Lemma repository_functions_terminate_witness :
  (exists r : result value,
     call_def obliging_runtime ∅
       (VFun ["x"; "t"] Notebook.dx_body) [VStr "not a vector"] = r
     /\ r <> Raise Unsupported)
  /\ call_def obliging_runtime
       (import_names ["cos"; "sin"] (pendulum_globals ∅))
       (VFun ["x"; "t"] Notebook.dx_body) [VArr [0; 0; 1; 0]; VFloat 0]
     = VArr <$> dx (import_names ["cos"; "sin"] (pendulum_globals ∅))
                   [0; 0; 1; 0] 0.
Proof.
  split.
  - apply (proj1 (proj2 repository_functions_terminate)
             obliging_runtime ∅ ("dx", ["x"; "t"], Notebook.dx_body)
             [VStr "not a vector"]).
    + repeat split; intros; discriminate.
    + apply list_elem_of_here.
  - apply (proj1 (proj2 (proj2 repository_functions_terminate))
             obliging_runtime
             (import_names ["cos"; "sin"] (pendulum_globals ∅)));
      vm_compute; first [reflexivity | exact I].
Defined.

(** ** Concrete runs *)

(** The cell that defines [dx] leaves [g], [L], [m] as [pendulum_globals]
    has them, and [dx] bound to its definition. *)
Lemma pendulum_cell_globals (rt : runtime) (exports : string -> list string)
    (fuel : nat) (st : store) (cell : list stmt) :
  Notebook.double_pendulum.(cells) !! 1%nat = Some cell ->
  run (eval_cell rt) exports fuel cell st
  = (<["dx" := VFun ["x"; "t"] Notebook.dx_body]> (pendulum_globals st), Done).
Proof. intros [= <-]. reflexivity. Qed.

(** The pendulum at rest stays at rest. *)
Example dx_at_rest : dx (pendulum_globals ∅) [0; 0; 0; 0] 0 = Ok [0; 0; 0; 0].
Proof.
  rewrite dx_notebook. unfold pendulum_rhs. cbv zeta.
  rewrite Rminus_diag, sin_0, cos_0.
  repeat f_equal; unfold Rdiv; ring.
Qed.

(** Too short a state is an IndexError, before any global is read. *)
Example dx_three_entries : dx ∅ [1; 2; 3] 0 = Raise IndexError.
Proof. reflexivity. Qed.

(** Without the globals, [dx] raises NameError. *)
Example dx_without_globals : dx ∅ [1; 2; 3; 4] 0 = Raise NameError.
Proof. reflexivity. Qed.

(** With [L = 0] the first division fails. *)
Example dx_zero_length :
  dx (<["L" := VFloat 0]> (pendulum_globals ∅)) [1; 2; 3; 4] 0
  = Raise ZeroDivisionError.
Proof.
  unfold dx. cbn [getitem lookup list_lookup mbind result_bind].
  assert (Hm : global (<["L" := VFloat 0]> (pendulum_globals ∅)) "m" = Ok 0.1)
    by reflexivity.
  assert (HL : global (<["L" := VFloat 0]> (pendulum_globals ∅)) "L" = Ok 0)
    by reflexivity.
  rewrite Hm, HL. cbn [mbind result_bind].
  unfold pdiv. rewrite decide_True by lra. reflexivity.
Qed.

Example dy_released_from_rest (w0 : R) :
  dy [1; 0] 0 0.2 w0 = Ok [0; - 2 * 0.2 * w0 * 0 - w0 ^ 2 * 1].
Proof. reflexivity. Qed.

Example f_at_zero : Optimization.f 0 = 4.
Proof. unfold Optimization.f. lra. Qed.

Example f_at_minus_two : Optimization.f (-2) = 0.
Proof. unfold Optimization.f. lra. Qed.

Example where_example : where_ [false; true; false; true] = [1; 3]%nat.
Proof. reflexivity. Qed.

Example positive_frequencies_example :
  positive_frequencies [0; 1; -1; 2] ["F0"; "F1"; "F2"; "F3"]%string
  = Ok ([1; 3]%nat, [1; 2], ["F1"; "F3"]%string).
Proof.
  unfold positive_frequencies, positive_mask. cbn [fmap list_fmap].
  rewrite (bool_decide_eq_false_2 (0 < 0)) by lra.
  rewrite (bool_decide_eq_true_2 (0 < 1)) by lra.
  rewrite (bool_decide_eq_false_2 (0 < -1)) by lra.
  rewrite (bool_decide_eq_true_2 (0 < 2)) by lra.
  reflexivity.
Qed.

(** The Fourier cell on a grid of three points, with an obliging
    library: [N] is 3 and [dt] is 5. *)
Example fourier_cell_run :
  exists st',
    run (eval_cell obliging_runtime) (fun _ => []) 0
        (block_stmts Notebook.fourier_transform) (fourier_namespace [0; 5; 10]%Z)
    = (st', Done)
    /\ st' !! "N" = Some (VInt 3) /\ st' !! "dt" = Some (VInt 5).
Proof. eexists. split; [vm_compute; reflexivity | split; reflexivity]. Qed.

(** A handler would catch: the same failing statement inside a [try]
    lets the cell complete. *)
Example try_would_catch :
  exec (eval_cell failing_runtime) (fun _ => []) 0
       (Try [Assign ["F"] (Call "fft" ["t" : expr])] [Assign ["F"] (Int 0)])
       (fourier_namespace [0; 5; 10]%Z)
  = (<["F" := VInt 0]> (fourier_namespace [0; 5; 10]%Z), Done).
Proof. vm_compute. reflexivity. Qed.
